(** * Router: swap call parameters and the challenge key (src/router.ts)

    A shallow embedding of [resolveChallenge] and [Router.swapCallParameters].

    Conventions of the embedding
    - JavaScript strings are [string]; the code only ever handles ASCII here.
    - [ethers.BigNumber] and [JSBI] values are integers of [Z].
    - The JavaScript numbers of the options record ([ttl], [deadline]) are
      integers of [Z], standing for the doubles of that value; numbers that
      are not integers or not finite are outside the model.  The one
      operation the code performs on them, the sum of the clock and [ttl],
      is the addition of doubles, with its rounding ([JS.add]).
    - The clock is an integer number of milliseconds in the range of
      [Date] (at most 8.64e15 in magnitude), on which
      [Math.floor(t / 1000)] is the exact floor.
    - A Node [Buffer] is a [list Z] of bytes.
    - [Math.random] is a stream [rnd : nat -> Z]: [rnd i] is the value of
      [Math.floor(Math.random() * 16)] at the [i]-th call.  The state threaded
      through the code is the number of calls made so far.
    - Exceptions and the unbounded [while] loop are made explicit by the
      [outcome] type: a run returns, throws, or is still running when the
      loop budget given to it is used up. *)

From Stdlib Require Import ZArith String Ascii List Bool Lia Arith.
Import ListNotations.

Local Open Scope string_scope.
Local Open Scope Z_scope.

(* ===================================================================== *)
(** ** JavaScript string primitives used by the module *)

Module JS.

(** [s.slice(n)] for a non-negative [n]. *)
Fixpoint slice_from (n : nat) (s : string) : string :=
  match n, s with
  | O, _ => s
  | S _, EmptyString => EmptyString
  | S k, String _ rest => slice_from k rest
  end.

(** [s.slice(-n)]: the last [n] characters (the whole string when shorter). *)
Definition slice_last (n : nat) (s : string) : string :=
  slice_from (String.length s - n) s.

(** [c.repeat(n)] for a one-character string. *)
Fixpoint repeat (c : ascii) (n : nat) : string :=
  match n with
  | O => EmptyString
  | S k => String c (repeat c k)
  end.

(** [arr.join('')]. *)
Fixpoint join (arr : list string) : string :=
  match arr with
  | [] => EmptyString
  | s :: rest => s ++ join rest
  end.

(** The digit [d] of [0..15] as [Number.prototype.toString(16)] prints it. *)
Definition hex_char (d : Z) : ascii :=
  match d with
  | 0 => "0" | 1 => "1" | 2 => "2" | 3 => "3" | 4 => "4" | 5 => "5"
  | 6 => "6" | 7 => "7" | 8 => "8" | 9 => "9" | 10 => "a" | 11 => "b"
  | 12 => "c" | 13 => "d" | 14 => "e" | _ => "f"
  end%char.

(** Value of a hexadecimal digit, either case, from its character code;
    [None] for any other character. *)
Definition hex_val (c : ascii) : option Z :=
  let code := Z.of_N (N_of_ascii c) in
  if (48 <=? code) && (code <=? 57) then Some (code - 48)        (* 0-9 *)
  else if (97 <=? code) && (code <=? 102) then Some (code - 87)  (* a-f *)
  else if (65 <=? code) && (code <=? 70) then Some (code - 55)   (* A-F *)
  else None.

(** Value of a decimal digit. *)
Definition dec_val (c : ascii) : option Z :=
  match hex_val c with
  | Some d => if d <? 10 then Some d else None
  | None => None
  end.

(** Most significant digit first, accumulating in [acc]. *)
Fixpoint hex_digits (fuel : nat) (n : Z) (acc : string) : string :=
  match fuel with
  | O => acc
  | S f =>
      let acc' := String (hex_char (n mod 16)) acc in
      if n <? 16 then acc' else hex_digits f (n / 16) acc'
  end.

(** [n.toString(16)] for an integer [n] (number, JSBI or BN alike):
    minimal digits, lower case, a leading minus sign when negative. *)
Definition toString16 (n : Z) : string :=
  if n <? 0
  then String "-" (hex_digits (S (Z.to_nat (Z.log2 (- n)))) (- n) "")
  else hex_digits (S (Z.to_nat (Z.log2 n))) n "".

(** The double nearest to the integer [n], as an integer: [n] itself up
    to 2^53 in magnitude; beyond, doubles are the multiples of
    2^(log2 |n| - 52), and a tie goes to the even multiple. *)
Definition round_double (n : Z) : Z :=
  let m := Z.abs n in
  if m <? 2 ^ 53 then n
  else
    let q := 2 ^ (Z.log2 m - 52) in
    let lo := m / q in
    let r := m mod q in
    let up := if (q <? 2 * r) || ((2 * r =? q) && Z.odd lo)
              then lo + 1 else lo in
    Z.sgn n * (up * q).

(** A JavaScript number as far as the code produces one: an integer-valued
    double or an infinity. *)
Inductive number : Type :=
| Finite (n : Z)
| Infinity (negative : bool).

(** [a + b] on integer-valued doubles: the exact sum, rounded to a double;
    an infinity from 2^1024 on. *)
Definition add (a b : Z) : number :=
  let sum := round_double (a + b) in
  if Z.abs sum <? 2 ^ 1024 then Finite sum else Infinity (sum <? 0).

(** [x.toString(16)] for such a number. *)
Definition number_toString16 (x : number) : string :=
  match x with
  | Finite n => toString16 n
  | Infinity false => "Infinity"
  | Infinity true => "-Infinity"
  end.

(** Reads digits in the given radix, most significant first. *)
Fixpoint read_digits (digit : ascii -> option Z) (radix : Z)
         (acc : Z) (s : string) : option Z :=
  match s with
  | EmptyString => Some acc
  | String c rest =>
      match digit c with
      | Some d => read_digits digit radix (radix * acc + d) rest
      | None => None
      end
  end.

(** One or more digits, nothing else. *)
Definition read_number (digit : ascii -> option Z) (radix : Z)
           (s : string) : option Z :=
  match s with
  | EmptyString => None
  | _ => read_digits digit radix 0 s
  end.

(** [parseInt(s, 16)] on a string without sign, blanks or prefix: the
    longest run of leading hexadecimal digits; [None] is [NaN]. *)
Fixpoint parseInt16_from (acc : option Z) (s : string) : option Z :=
  match s with
  | EmptyString => acc
  | String c rest =>
      match hex_val c with
      | Some d =>
          parseInt16_from
            (Some (16 * (match acc with Some a => a | None => 0 end) + d)) rest
      | None => acc
      end
  end.

Definition parseInt16 (s : string) : option Z := parseInt16_from None s.

End JS.

(* ===================================================================== *)
(** ** The parts of ethers' [BigNumber] and Node's [Buffer] the code calls *)

Module BigNumber.

(** The number of [BigNumber.from(s)] for a string without sign: [0x]
    followed by hexadecimal digits, or decimal digits.  [None] for any
    other string, the upper-case prefix [0X] included (see
    [upper_prefix]). *)
Definition from_unsigned (s : string) : option Z :=
  match s with
  | String "0" (String "x" digits) => JS.read_number JS.hex_val 16 digits
  | _ => JS.read_number JS.dec_val 10 s
  end.

(** [ethers.BigNumber.from(value)] for a string, as a number the code can
    compute with.  ethers accepts [/^-?0x[0-9a-f]+$/i] and [/^-?[0-9]+$/]
    and throws "invalid BigNumber string" on anything else; [None] then,
    and also for the strings of [upper_prefix]. *)
Definition from (value : string) : option Z :=
  match value with
  | String "-" rest => option_map Z.opp (from_unsigned rest)
  | _ => from_unsigned value
  end.

Definition upper_prefix_unsigned (s : string) : bool :=
  match s with
  | String "0" (String "X" digits) =>
      match JS.read_number JS.hex_val 16 digits with
      | Some _ => true
      | None => false
      end
  | _ => false
  end.

(** The strings the first pattern accepts with an upper-case [0X]: ethers
    only recognises the lower-case prefix when it builds the BigNumber, so
    [from] returns one that holds the [X] among its digits, and the first
    arithmetic on it throws (bn.js: invalid character). *)
Definition upper_prefix (value : string) : bool :=
  match value with
  | String "-" rest => upper_prefix_unsigned rest
  | _ => upper_prefix_unsigned value
  end.

(** [0x] and an even number of digits. *)
Definition even_hex (n : Z) : string :=
  let d := JS.toString16 n in
  "0x" ++ (if Nat.even (String.length d) then d else String "0" d).

(** [bn.toHexString()]: ethers prints whole bytes, so [1] is [0x01] and
    zero is [0x00]. *)
Definition toHexString (v : Z) : string :=
  if v <? 0 then String "-" (even_hex (- v)) else even_hex v.

End BigNumber.

Module Buffer.

(** [Buffer.from(s, 'hex')]: two digits per byte; decoding stops at the
    first pair holding a character that is not a hexadecimal digit, and a
    trailing single character is dropped. *)
Fixpoint from_hex (s : string) : list Z :=
  match s with
  | String a (String b rest) =>
      match JS.hex_val a, JS.hex_val b with
      | Some hi, Some lo => (16 * hi + lo) :: from_hex rest
      | _, _ => []
      end
  | _ => []
  end.

(** [buf[i]] used as an operand of [^]: reading past the end gives
    [undefined], which [^] converts to 0. *)
Definition at_or_zero (buf : list Z) (i : nat) : Z := nth i buf 0.

(** [buf.map((b, i) => f(b, i))], the index counted from [i]. *)
Fixpoint mapi_from (f : Z -> nat -> Z) (i : nat) (buf : list Z) : list Z :=
  match buf with
  | [] => []
  | b :: rest => f b i :: mapi_from f (S i) rest
  end.

Definition mapi (f : Z -> nat -> Z) (buf : list Z) : list Z :=
  mapi_from f O buf.

(** [buf.toString('hex')]. *)
Fixpoint to_hex (buf : list Z) : string :=
  match buf with
  | [] => EmptyString
  | b :: rest =>
      String (JS.hex_char (b / 16)) (String (JS.hex_char (b mod 16)) (to_hex rest))
  end.

End Buffer.

(* ===================================================================== *)
(** ** Runs of effectful code: result, exception or still running *)

Inductive error : Type :=
| InvalidBigNumber (value : string)   (* ethers: "invalid BigNumber string" *)
| InvalidCharacter (value : string)   (* bn.js, on a BigNumber of [0X...] *)
| Invariant (message : string)        (* tiny-invariant, with its message *)
| InvalidAddress (address : string)   (* thrown by validateAndParseAddress *)
| TradeError.                         (* thrown inside trade.maximumAmountIn *)

(** [calls] is the number of [Math.random] calls made since the process
    started, when the run ended. *)
Inductive outcome (A : Type) : Type :=
| Returned (a : A) (calls : nat)
| Threw (e : error) (calls : nat)
| Running.

Arguments Returned {A} a calls.
Arguments Threw {A} e calls.
Arguments Running {A}.

Definition M (A : Type) : Type := nat -> outcome A.

Definition ret {A} (a : A) : M A := fun calls => Returned a calls.

Definition throw {A} (e : error) : M A := fun calls => Threw e calls.

Definition bind {A B} (m : M A) (k : A -> M B) : M B :=
  fun calls =>
    match m calls with
    | Returned a calls' => k a calls'
    | Threw e calls' => Threw e calls'
    | Running => Running
    end.

Declare Scope run_scope.
Delimit Scope run_scope with run.
Notation "x <- m ;; k" := (bind m (fun x => k))
  (at level 61, m at next level, right associativity) : run_scope.
Notation "m ;;; k" := (bind m (fun _ => k))
  (at level 61, right associativity) : run_scope.
Local Open Scope run_scope.

(** A helper that returns [None] where the JavaScript one throws. *)
Definition or_throw {A} (e : error) (r : option A) : M A :=
  match r with
  | Some a => ret a
  | None => throw e
  end.

(** [invariant(condition, message)] of tiny-invariant. *)
Definition invariant (condition : bool) (message : string) : M unit :=
  if condition then ret tt else throw (Invariant message).

(** What a string that is no usable BigNumber makes the code throw. *)
Definition BigNumber_error (value : string) : error :=
  if BigNumber.upper_prefix value
  then InvalidCharacter value
  else InvalidBigNumber value.

(** [ethers.BigNumber.from(value)] as a step of a run, up to the first
    arithmetic on the result.  Both places the code calls it
    ([signer.mod(2)] on line 94, [betweenLimits] on line 100) compute with
    the result before anything else happens, so the throw of a BigNumber
    of [0X...] is placed here. *)
Definition BigNumber_from (value : string) : M Z :=
  or_throw (BigNumber_error value) (BigNumber.from value).

(* ===================================================================== *)
(** ** [resolveChallenge] *)

(** [ethers.BigNumber.from('0xffffffffffffffffffffffffffffffffffffffff')]. *)
Definition UINT160_MAX : Z := 2 ^ 160 - 1.

(** The closure [pad]: note that [hex.length] counts a [0x] prefix when the
    argument has one. *)
Definition pad (hex : string) (count : nat) : string :=
  JS.repeat "0" (count - String.length hex) ++ hex.

(** The closure [getBEFB]; [None] stands for [NaN]. *)
Definition getBEFB (ckashHex : string) : option Z :=
  let padded := pad ckashHex 40 in
  JS.parseInt16 (JS.slice_last 2 padded).

Definition GOAL : Z := 69.

(** The closure [xor]: both arguments lose their first two characters, are
    decoded as hexadecimal, and the first buffer is mapped byte by byte. *)
Definition xor (hex1 hex2 : string) : string :=
  let buf1 := Buffer.from_hex (JS.slice_from 2 hex1) in
  let buf2 := Buffer.from_hex (JS.slice_from 2 hex2) in
  let bufResult :=
    Buffer.mapi (fun b i => Z.lxor b (Buffer.at_or_zero buf2 i)) buf1 in
  Buffer.to_hex bufResult.

(** The pair [limits], chosen by [signer.mod(2).eq(0)]. *)
Definition limits_of (signer : Z) : Z * Z :=
  if signer mod 2 =? 0
  then (signer + 1, UINT160_MAX)
  else (0, signer - 1).

Definition betweenLimits (limits : Z * Z) (challengeKey : Z) : bool :=
  (fst limits <=? challengeKey) && (challengeKey <=? snd limits).

(** The closure [resolved], with the captured [signerAddress] and [limits]
    as parameters. *)
Definition resolved (signerAddress : string) (limits : Z * Z)
           (challengeKey : Z) : bool :=
  if negb (betweenLimits limits challengeKey) then false
  else
    let ckasHex := BigNumber.toHexString challengeKey in
    let padded := pad ckasHex 40 in
    let xorred := xor signerAddress padded in
    let firstByte := getBEFB xorred in
    match firstByte with
    | Some b => b =? GOAL
    | None => false
    end.

Section RandomSource.

Variable rnd : nat -> Z.

(** [Math.floor(Math.random() * 16)]: one call of the random source. *)
Definition random_digit : M Z :=
  fun calls => Returned (rnd calls) (S calls).

(** The [for] loop of [genRanHex], [n] iterations left. *)
Fixpoint genRanHex_loop (n : nat) (arr : list string) : M (list string) :=
  match n with
  | O => ret arr
  | S k =>
      d <- random_digit ;;
      genRanHex_loop k (arr ++ [JS.toString16 d])
  end.

Definition genRanHex (size : nat) : M string :=
  arr <- genRanHex_loop size [] ;;
  ret (JS.join arr).

(** [ethers.BigNumber.from('0x' + genRanHex(40))]. *)
Definition draw_candidate : M Z :=
  hex <- genRanHex 40 ;;
  BigNumber_from ("0x" ++ hex).

(** The [while (!resolved(challengeKey))] loop; [fuel] bounds the number of
    times its condition is evaluated, and the run is [Running] when the
    bound is reached. *)
Fixpoint search (fuel : nat) (signerAddress : string) (limits : Z * Z)
         (challengeKey : Z) : M Z :=
  match fuel with
  | O => fun _ => Running
  | S f =>
      if resolved signerAddress limits challengeKey
      then ret challengeKey
      else
        next <- draw_candidate ;;
        search f signerAddress limits next
  end.

Definition resolveChallenge (fuel : nat) (signerAddress : string) : M Z :=
  signer <- BigNumber_from signerAddress ;;
  let limits := limits_of signer in
  challengeKey <- draw_candidate ;;
  search fuel signerAddress limits challengeKey.

End RandomSource.

(* ===================================================================== *)
(** ** The entities and options [swapCallParameters] reads

    The entity classes live in ./entities, ./constants and ./utils, outside
    this module; only the members that [swapCallParameters] touches are
    kept, and the methods it calls are fields or parameters. *)

Inductive TradeType : Type := EXACT_INPUT | EXACT_OUTPUT.

Record Token : Type := { address : string }.

(** [ETHER] is the singleton the code compares with [===]. *)
Inductive Currency : Type :=
| ETHER
| TokenCurrency (token : Token).

Definition is_ETHER (c : Currency) : bool :=
  match c with
  | ETHER => true
  | TokenCurrency _ => false
  end.

Record CurrencyAmount : Type := { currency : Currency; raw : Z }.

Record Percent : Type := { numerator : Z; denominator : Z }.

Record Route : Type := { path : list Token }.

Record Trade : Type := {
  route : Route;
  tradeType : TradeType;
  inputAmount : CurrencyAmount;
  outputAmount : CurrencyAmount;
  (** [trade.maximumAmountIn(slippage)]; [None] when it throws. *)
  maximumAmountIn : Percent -> option CurrencyAmount
}.

(** [TradeOptions] carries [ttl], [TradeOptionsDeadline] carries
    [deadline]; ['ttl' in options] tells them apart. *)
Inductive Expiry : Type :=
| Ttl (ttl : Z)
| Deadline (deadline : Z).

Record Options : Type := {
  allowedSlippage : Percent;
  expiry : Expiry;
  recipient : string;
  (** the optional field: [None] when absent *)
  feeOnTransfer : option bool
}.

(** An element of [args]: [string | string[]]. *)
Inductive Arg : Type :=
| Str (s : string)
| Strs (l : list string).

Record SwapParameters : Type := {
  methodName : string;
  args : list Arg;
  value : string
}.

(** [toHex(currencyAmount)]. *)
Definition toHex (currencyAmount : CurrencyAmount) : string :=
  "0x" ++ JS.toString16 (raw currencyAmount).

Definition ZERO_HEX : string := "0x0".

(** [Boolean(options.feeOnTransfer)]: [undefined] is falsy. *)
Definition Boolean (flag : option bool) : bool :=
  match flag with
  | Some b => b
  | None => false
  end.

(** ['ttl' in options]. *)
Definition has_ttl (options : Options) : bool :=
  match expiry options with
  | Ttl _ => true
  | Deadline _ => false
  end.

Section Router.

Variable rnd : nat -> Z.
(** [validateAndParseAddress] from ./utils; [None] when it throws. *)
Variable validateAndParseAddress : string -> option string.
(** [new Date().getTime()], in milliseconds. *)
Variable now : Z.

Definition swapCallParameters (fuel : nat) (trade : Trade) (options : Options)
           (caller : string) : M SwapParameters :=
  challengeKey <- resolveChallenge rnd fuel caller ;;
  let etherIn := is_ETHER (currency (inputAmount trade)) in
  let etherOut := is_ETHER (currency (outputAmount trade)) in
  invariant (negb (etherIn && etherOut)) "ETHER_IN_OUT" ;;;
  invariant (negb (has_ttl options)
             || match expiry options with
                | Ttl ttl => 0 <? ttl
                | Deadline _ => false
                end) "TTL" ;;;
  to <- or_throw (InvalidAddress (recipient options))
                 (validateAndParseAddress (recipient options)) ;;
  maxIn <- or_throw TradeError
                    (maximumAmountIn trade (allowedSlippage options)) ;;
  let amountIn := toHex maxIn in
  let amountOut := "0x0" in
  let path := map address (path (route trade)) in
  let deadline :=
    match expiry options with
    | Ttl ttl => "0x" ++ JS.number_toString16 (JS.add (now / 1000) ttl)
    | Deadline deadline => "0x" ++ JS.toString16 deadline
    end in
  let useFeeOnTransfer := Boolean (feeOnTransfer options) in
  let key := BigNumber.toHexString challengeKey in
  match tradeType trade with
  | EXACT_INPUT =>
      if etherIn then
        ret {| methodName :=
                 if useFeeOnTransfer
                 then "swapExactETHForTokensSupportingFeeOnTransferTokens"
                 else "swapExactETHForTokens";
               args := [Str amountOut; Strs path; Str to; Str deadline; Str key];
               value := amountIn |}
      else if etherOut then
        ret {| methodName :=
                 if useFeeOnTransfer
                 then "swapExactTokensForETHSupportingFeeOnTransferTokens"
                 else "swapExactTokensForETH";
               args := [Str amountIn; Str amountOut; Strs path; Str to;
                        Str deadline; Str key];
               value := ZERO_HEX |}
      else
        ret {| methodName :=
                 if useFeeOnTransfer
                 then "swapExactTokensForTokensSupportingFeeOnTransferTokens"
                 else "swapExactTokensForTokens";
               args := [Str amountIn; Str amountOut; Strs path; Str to;
                        Str deadline; Str key];
               value := ZERO_HEX |}
  | EXACT_OUTPUT =>
      invariant (negb useFeeOnTransfer) "EXACT_OUT_FOT" ;;;
      if etherIn then
        ret {| methodName := "swapETHForExactTokens";
               args := [Str amountOut; Strs path; Str to; Str deadline; Str key];
               value := amountIn |}
      else if etherOut then
        ret {| methodName := "swapTokensForExactETH";
               args := [Str amountOut; Str amountIn; Strs path; Str to;
                        Str deadline; Str key];
               value := ZERO_HEX |}
      else
        ret {| methodName := "swapTokensForExactTokens";
               args := [Str amountOut; Str amountIn; Strs path; Str to;
                        Str deadline; Str key];
               value := ZERO_HEX |}
  end.

End Router.

(* ===================================================================== *)
(** ** The properties of the specification, as definitions *)

(** *** The challenge property (section 4.1) *)

(** The property of the specification, in its words: the signer and the
    key printed as 40 zero-padded hexadecimal digits are two byte strings
    of equal length; the last byte of their bytewise XOR. *)
Definition key_hex40 (key : Z) : string := pad (JS.toString16 key) 40.

Fixpoint xor_bytewise (b1 b2 : list Z) : list Z :=
  match b1, b2 with
  | x :: r1, y :: r2 => Z.lxor x y :: xor_bytewise r1 r2
  | _, _ => []
  end.

Definition spec_last_xor_byte (signerAddress : string) (key : Z) : Z :=
  let signer_bytes := Buffer.from_hex (JS.slice_from 2 signerAddress) in
  let key_bytes := Buffer.from_hex (key_hex40 key) in
  last (xor_bytewise signer_bytes key_bytes) 0.

(** *** The conditions of the builder (section 4.2) *)

Definition etherIn (trade : Trade) : bool :=
  is_ETHER (currency (inputAmount trade)).

Definition etherOut (trade : Trade) : bool :=
  is_ETHER (currency (outputAmount trade)).

(** Both legs are the native currency. *)
Definition both_native (trade : Trade) : bool :=
  etherIn trade && etherOut trade.

(** The options carry a time-to-live that is zero or negative. *)
Definition ttl_violation (options : Options) : bool :=
  match expiry options with
  | Ttl ttl => ttl <=? 0
  | Deadline _ => false
  end.

(** Exact output together with a fee-on-transfer request. *)
Definition fot_violation (trade : Trade) (options : Options) : bool :=
  match tradeType trade with
  | EXACT_INPUT => false
  | EXACT_OUTPUT => Boolean (feeOnTransfer options)
  end.

(** The deadline argument as the specification words it: the clock in
    epoch seconds plus the time-to-live, as JavaScript adds them, or the
    absolute deadline, in hexadecimal. *)
Definition deadline_hex (now : Z) (options : Options) : string :=
  match expiry options with
  | Ttl ttl => "0x" ++ JS.number_toString16 (JS.add (now / 1000) ttl)
  | Deadline deadline => "0x" ++ JS.toString16 deadline
  end.

(** The options with another slippage tolerance. *)
Definition with_slippage (options : Options) (slippage : Percent) : Options :=
  {| allowedSlippage := slippage;
     expiry := expiry options;
     recipient := recipient options;
     feeOnTransfer := feeOnTransfer options |}.

(** The options with another expiry. *)
Definition with_expiry (options : Options) (e : Expiry) : Options :=
  {| allowedSlippage := allowedSlippage options;
     expiry := e;
     recipient := recipient options;
     feeOnTransfer := feeOnTransfer options |}.

(** The options with the optional fee-on-transfer field absent ([None]) or
    set. *)
Definition with_fee (options : Options) (fee : option bool) : Options :=
  {| allowedSlippage := allowedSlippage options;
     expiry := expiry options;
     recipient := recipient options;
     feeOnTransfer := fee |}.

(** *** The decision table (section 4.2)

    One row per (direction, input native, output native, fee-on-transfer)
    combination; the method names are the router's, which the table
    paraphrases.  The exact-output rows do not depend on the fee flag,
    which must be off. *)

Inductive Slot : Type :=
| MinOut | AmountIn | AmountOut | AmountInMax | PathSlot | ToSlot | DeadlineSlot.

Inductive NativeValue : Type := SendAmountIn | SendZero.

Record Row : Type := {
  row_method : string;
  row_args : list Slot;
  row_value : NativeValue
}.

Definition decision_table (direction : TradeType)
           (in_native out_native fee : bool) : option Row :=
  match direction, in_native, out_native, fee with
  | EXACT_INPUT, true, false, false =>
      Some {| row_method := "swapExactETHForTokens";
              row_args := [MinOut; PathSlot; ToSlot; DeadlineSlot];
              row_value := SendAmountIn |}
  | EXACT_INPUT, true, false, true =>
      Some {| row_method := "swapExactETHForTokensSupportingFeeOnTransferTokens";
              row_args := [MinOut; PathSlot; ToSlot; DeadlineSlot];
              row_value := SendAmountIn |}
  | EXACT_INPUT, false, true, false =>
      Some {| row_method := "swapExactTokensForETH";
              row_args := [AmountIn; MinOut; PathSlot; ToSlot; DeadlineSlot];
              row_value := SendZero |}
  | EXACT_INPUT, false, true, true =>
      Some {| row_method := "swapExactTokensForETHSupportingFeeOnTransferTokens";
              row_args := [AmountIn; MinOut; PathSlot; ToSlot; DeadlineSlot];
              row_value := SendZero |}
  | EXACT_INPUT, false, false, false =>
      Some {| row_method := "swapExactTokensForTokens";
              row_args := [AmountIn; MinOut; PathSlot; ToSlot; DeadlineSlot];
              row_value := SendZero |}
  | EXACT_INPUT, false, false, true =>
      Some {| row_method := "swapExactTokensForTokensSupportingFeeOnTransferTokens";
              row_args := [AmountIn; MinOut; PathSlot; ToSlot; DeadlineSlot];
              row_value := SendZero |}
  | EXACT_OUTPUT, true, false, false =>
      Some {| row_method := "swapETHForExactTokens";
              row_args := [AmountOut; PathSlot; ToSlot; DeadlineSlot];
              row_value := SendAmountIn |}
  | EXACT_OUTPUT, false, true, false =>
      Some {| row_method := "swapTokensForExactETH";
              row_args := [AmountOut; AmountInMax; PathSlot; ToSlot; DeadlineSlot];
              row_value := SendZero |}
  | EXACT_OUTPUT, false, false, false =>
      Some {| row_method := "swapTokensForExactTokens";
              row_args := [AmountOut; AmountInMax; PathSlot; ToSlot; DeadlineSlot];
              row_value := SendZero |}
  | _, _, _, _ => None
  end.

(** What each slot of a row holds: the output amount is the zero scalar
    (step 4), the input amount the hex-encoded maximum input (step 3). *)
Definition fill (amountIn : string) (path : list string) (to deadline : string)
           (s : Slot) : Arg :=
  match s with
  | MinOut | AmountOut => Str "0x0"
  | AmountIn | AmountInMax => Str amountIn
  | PathSlot => Strs path
  | ToSlot => Str to
  | DeadlineSlot => Str deadline
  end.

Definition native_value (amountIn : string) (v : NativeValue) : string :=
  match v with
  | SendAmountIn => amountIn
  | SendZero => "0x0"
  end.

(** Where the output amount stands in [args], from the signatures quoted
    in the source: first for a native input leg and for exact output,
    second (after [amountIn]) otherwise. *)
Definition amountOut_index (trade : Trade) : nat :=
  match tradeType trade with
  | EXACT_INPUT => if etherIn trade then 0%nat else 1%nat
  | EXACT_OUTPUT => 0%nat
  end.

(* ===================================================================== *)
(** ** Vocabulary of the proofs *)

Definition signer_last_byte (signerAddress : string) : Z :=
  last (Buffer.from_hex (JS.slice_from 2 signerAddress)) 0.

(** The byte [getBEFB] finds at the end of [xor hex1 hex2]: the last byte
    of the first buffer XORed with the byte of the second at the same
    index, [undefined] past its end counting as 0; when the first buffer is
    empty, the 0 of the padding. *)
Definition xor_last_byte (hex1 hex2 : string) : Z :=
  let buf1 := Buffer.from_hex (JS.slice_from 2 hex1) in
  let buf2 := Buffer.from_hex (JS.slice_from 2 hex2) in
  match buf1 with
  | [] => 0
  | _ :: _ =>
      Z.lxor (last buf1 0) (Buffer.at_or_zero buf2 (List.length buf1 - 1))
  end.

(** The digits a call of [genRanHex] consumes. *)
Definition window (rnd : nat -> Z) (calls size : nat) : list Z :=
  map rnd (seq calls size).

(** The number whose hexadecimal digits are [ds], after [acc]. *)
Definition digits_value (acc : Z) (ds : list Z) : Z :=
  fold_left (fun a d => 16 * a + d) ds acc.

(** The key a draw at position [calls] produces; 0 stands in for a draw
    that would not return. *)
Definition drawn (rnd : nat -> Z) (calls : nat) : Z :=
  match draw_candidate rnd calls with
  | Returned key _ => key
  | _ => 0
  end.

(** The string of the digits [ds]. *)
Fixpoint digit_string (ds : list Z) : string :=
  match ds with
  | [] => EmptyString
  | d :: rest => String (JS.hex_char d) (digit_string rest)
  end.

Definition is_digit (d : Z) : Prop := 0 <= d < 16.

Definition is_byte (b : Z) : Prop := 0 <= b < 256.

(** The [k]-th candidate of a call of [resolveChallenge] entered after
    [calls] calls of the random source, and whether it ends the search. *)
Definition candidate (rnd : nat -> Z) (calls k : nat) : Z :=
  drawn rnd (calls + 40 * k)%nat.

Definition hit (rnd : nat -> Z) (signerAddress : string) (limits : Z * Z)
           (calls k : nat) : bool :=
  resolved signerAddress limits (candidate rnd calls k).

(* ===================================================================== *)
(** ** Concrete inputs used by the examples *)

Module Fixtures.

(** The random source that yields the digits of [s], then zeros. *)
Definition digits_of (s : string) : list Z :=
  map (fun c => match JS.hex_val c with Some d => d | None => 0 end)
      (list_ascii_of_string s).

Definition stream (s : string) : nat -> Z :=
  fun i => nth i (digits_of s) 0.

Definition zero_address : string :=
  "0x0000000000000000000000000000000000000000".

(** An odd address whose last byte is 0x45 = 69. *)
Definition address_45 : string :=
  "0x1111111111111111111111111111111111111145".

(** Forty digits of a key that resolves the challenge of [zero_address]. *)
Definition good_digits : string :=
  "1000000000000000000000000000000000000045".

Definition good_key : Z :=
  91343852333181432387730302044767688728495784005.

(** The random source that repeats the 40 digits of [s] for ever. *)
Definition cycle (s : string) : nat -> Z :=
  fun i => nth (i mod 40) (digits_of s) 0.

(** An odd address below 2^152 whose last byte is 0xa1, and the forty
    digits of the key 0xe4 = 228: 0xa1 XOR 0xe4 = 0x45. *)
Definition address_a1 : string :=
  "0x00aaaaaaaaaaaaaaaaaaaaaaaaaaaaaaaaaaaaa1".

Definition a1_value : Z := 3805993847215893016155429251865320363687324321.

Definition e4_digits : string :=
  "00000000000000000000000000000000000000e4".

(** Forty digits whose first byte is zero: a 19-byte key. *)
Definition short_digits : string :=
  "0011111111111111111111111111111111111111".

Definition short_key : Z :=
  380599384721589301615542925186532036368732433.

End Fixtures.

(** [n] windows of zeros, then the digits of [Fixtures.good_key]. *)
Definition late_source (n : nat) : nat -> Z :=
  fun i =>
    if (i <? 40 * n)%nat then 0
    else Fixtures.stream Fixtures.good_digits (i - 40 * n).

Module Trades.

Definition tokenA : Token :=
  {| address := "0xaAaAaAaaAaAaAaaAaAAAAAAAAaaaAaAaAaaAaaAa" |}.
Definition tokenB : Token :=
  {| address := "0xbBbBBBBbbBBBbbbBbbBbbbbBBbBbbbbBbBbbBBbB" |}.

Definition hundred (c : Currency) : CurrencyAmount :=
  {| currency := c; raw := 100 |}.

Definition make (direction : TradeType) (input output : Currency) : Trade :=
  {| route := {| path := [tokenA; tokenB] |};
     tradeType := direction;
     inputAmount := hundred input;
     outputAmount := hundred output;
     maximumAmountIn := fun _ => Some (hundred input) |}.

Definition tokens_for_tokens : Trade :=
  make EXACT_INPUT (TokenCurrency tokenA) (TokenCurrency tokenB).

Definition native_for_native : Trade := make EXACT_INPUT ETHER ETHER.

Definition tokens_for_exact_tokens : Trade :=
  make EXACT_OUTPUT (TokenCurrency tokenA) (TokenCurrency tokenB).

Definition half_percent : Percent := {| numerator := 50; denominator := 10000 |}.

Definition options_with (e : Expiry) (fee : option bool) : Options :=
  {| allowedSlippage := half_percent;
     expiry := e;
     recipient := "0x2222222222222222222222222222222222222222";
     feeOnTransfer := fee |}.

(** A validator that accepts every recipient as it is, and one that
    rejects every recipient. *)
Definition accept : string -> option string := fun a => Some a.
Definition reject : string -> option string := fun _ => None.

Definition clock : Z := 1700000000000.

(** The random source and caller of the runs below: one draw resolves. *)
Definition source : nat -> Z := Fixtures.stream Fixtures.good_digits.
Definition caller : string := Fixtures.zero_address.

End Trades.

(* ===================================================================== *)
(** ** Facts about runs *)

Lemma bind_returned {A B} (m : M A) (k : A -> M B) calls a calls' :
  m calls = Returned a calls' -> bind m k calls = k a calls'.
Proof. intros H. unfold bind. now rewrite H. Qed.

Lemma bind_threw {A B} (m : M A) (k : A -> M B) calls e calls' :
  m calls = Threw e calls' -> bind m k calls = Threw e calls'.
Proof. intros H. unfold bind. now rewrite H. Qed.

Lemma bind_running {A B} (m : M A) (k : A -> M B) calls :
  m calls = Running -> bind m k calls = Running.
Proof. intros H. unfold bind. now rewrite H. Qed.

(** A bind that returns went through a returning first step. *)
Lemma bind_inv_returned {A B} (m : M A) (k : A -> M B) calls b calls'' :
  bind m k calls = Returned b calls'' ->
  exists a calls', m calls = Returned a calls' /\ k a calls' = Returned b calls''.
Proof.
  unfold bind. destruct (m calls) as [a c | e c | ]; intros H; try discriminate.
  now exists a, c.
Qed.

(* ===================================================================== *)
(** ** [resolveChallenge]: what a returned key satisfies *)

Lemma resolved_betweenLimits signerAddress limits key :
  resolved signerAddress limits key = true ->
  betweenLimits limits key = true.
Proof.
  unfold resolved. destruct (betweenLimits limits key); simpl; congruence.
Qed.

(** The loop only ever returns a key on which its condition held. *)
Lemma search_returns_resolved rnd fuel signerAddress limits :
  forall challengeKey calls key calls',
    search rnd fuel signerAddress limits challengeKey calls = Returned key calls' ->
    resolved signerAddress limits key = true.
Proof.
  induction fuel as [| f IH]; intros ck calls key calls' H; simpl in H.
  - discriminate.
  - destruct (resolved signerAddress limits ck) eqn:R.
    + unfold ret in H. injection H as <- _. exact R.
    + apply bind_inv_returned in H as (next & c & _ & H). eauto.
Qed.

Lemma resolveChallenge_returns_resolved rnd fuel signerAddress calls key calls' :
  resolveChallenge rnd fuel signerAddress calls = Returned key calls' ->
  exists signer,
    BigNumber.from signerAddress = Some signer /\
    resolved signerAddress (limits_of signer) key = true.
Proof.
  unfold resolveChallenge. intros H.
  apply bind_inv_returned in H as (signer & c & Hs & H).
  apply bind_inv_returned in H as (ck & c' & _ & H).
  exists signer. split.
  - unfold BigNumber_from, or_throw in Hs.
    destruct (BigNumber.from signerAddress); [| discriminate].
    unfold ret in Hs. now injection Hs as -> _.
  - eapply search_returns_resolved; eassumption.
Qed.

(** The upper limit is the value of the literal in the source. *)
Lemma UINT160_MAX_literal :
  BigNumber.from "0xffffffffffffffffffffffffffffffffffffffff"
  = Some UINT160_MAX.
Proof. reflexivity. Qed.

Lemma limits_of_even signer :
  Z.even signer = true -> limits_of signer = (signer + 1, UINT160_MAX).
Proof.
  intros E. unfold limits_of. rewrite Zmod_even, E. reflexivity.
Qed.

Lemma limits_of_odd signer :
  Z.odd signer = true -> limits_of signer = (0, signer - 1).
Proof.
  intros O. unfold limits_of. rewrite Zmod_odd, O. reflexivity.
Qed.

(** C2. For a 160-bit signer, a key returned by [resolveChallenge] lies in
    [signer+1, 2^160-1] when the signer is even and in [0, signer-1] when it
    is odd; in both cases it differs from the signer. *)
Theorem resolveChallenge_range rnd fuel signerAddress signer calls key calls' :
  BigNumber.from signerAddress = Some signer ->
  0 <= signer < 2 ^ 160 ->
  resolveChallenge rnd fuel signerAddress calls = Returned key calls' ->
  (Z.even signer = true -> signer + 1 <= key <= 2 ^ 160 - 1) /\
  (Z.odd signer = true -> 0 <= key <= signer - 1) /\
  key <> signer.
Proof.
  intros Hs _ H.
  apply resolveChallenge_returns_resolved in H as (s' & Hs' & R).
  rewrite Hs in Hs'. injection Hs' as <-.
  apply resolved_betweenLimits in R. unfold betweenLimits in R.
  apply andb_true_iff in R as [Lo Hi].
  apply Z.leb_le in Lo. apply Z.leb_le in Hi.
  assert (Even : Z.even signer = true ->
                 signer + 1 <= key <= 2 ^ 160 - 1).
  { intros E. rewrite (limits_of_even _ E) in Lo, Hi. simpl in Lo, Hi.
    unfold UINT160_MAX in Hi. lia. }
  assert (Odd : Z.odd signer = true -> 0 <= key <= signer - 1).
  { intros O. rewrite (limits_of_odd _ O) in Lo, Hi. simpl in Lo, Hi. lia. }
  repeat split; try (intros; apply Even; assumption);
    try (intros; apply Odd; assumption).
  intros ->. destruct (Z.even signer) eqn:E.
  - specialize (Even eq_refl). lia.
  - rewrite <- Z.negb_odd in E. apply negb_false_iff in E.
    specialize (Odd E). lia.
Qed.

Lemma resolveChallenge_range_witness :
  (Z.even 0 = true -> 0 + 1 <= Fixtures.good_key <= 2 ^ 160 - 1) /\
  (Z.odd 0 = true -> 0 <= Fixtures.good_key <= 0 - 1) /\
  Fixtures.good_key <> 0.
Proof.
  apply (resolveChallenge_range (Fixtures.stream Fixtures.good_digits) 1
           Fixtures.zero_address 0 0%nat Fixtures.good_key 40%nat).
  - reflexivity.
  - lia.
  - vm_compute. reflexivity.
Defined.

(** C3. The code departs from the property on keys shorter than 20 bytes:
    for the signer 0x11...1145 and a first draw 0x0011...11,
    [resolveChallenge] returns that draw, although the last byte of signer
    XOR key is 0x45 XOR 0x11 = 84, not 69.  [pad] counted the [0x] prefix,
    so the key was not padded and its 19 bytes were XORed against the first
    19 bytes of the signer; the last byte of the result is the signer's
    own. *)
Theorem resolveChallenge_short_key_misaligned :
  resolveChallenge (Fixtures.stream Fixtures.short_digits) 1
                   Fixtures.address_45 0%nat
    = Returned Fixtures.short_key 40%nat /\
  spec_last_xor_byte Fixtures.address_45 Fixtures.short_key = 84 /\
  spec_last_xor_byte Fixtures.address_45 Fixtures.short_key <> GOAL /\
  pad (BigNumber.toHexString Fixtures.short_key) 40
    = "0x11111111111111111111111111111111111111".
Proof.
  assert (S : spec_last_xor_byte Fixtures.address_45 Fixtures.short_key = 84)
    by (vm_compute; reflexivity).
  repeat split; try (vm_compute; reflexivity).
  rewrite S. discriminate.
Qed.

(* ===================================================================== *)
(** ** [resolveChallenge]: the candidates and the length of the search *)

Lemma digit_cases d :
  0 <= d < 16 ->
  d = 0 \/ d = 1 \/ d = 2 \/ d = 3 \/ d = 4 \/ d = 5 \/ d = 6 \/ d = 7 \/
  d = 8 \/ d = 9 \/ d = 10 \/ d = 11 \/ d = 12 \/ d = 13 \/ d = 14 \/ d = 15.
Proof. lia. Qed.

Ltac each_digit H :=
  apply digit_cases in H;
  repeat (destruct H as [H | H]; [subst; reflexivity |]);
  subst; reflexivity.

Lemma toString16_digit d :
  0 <= d < 16 -> JS.toString16 d = String (JS.hex_char d) "".
Proof. intros H. each_digit H. Qed.

Lemma hex_val_hex_char d :
  0 <= d < 16 -> JS.hex_val (JS.hex_char d) = Some d.
Proof. intros H. each_digit H. Qed.

Lemma genRanHex_loop_window rnd n :
  forall arr calls,
    genRanHex_loop rnd n arr calls
    = Returned (arr ++ map JS.toString16 (window rnd calls n))%list
               (calls + n)%nat.
Proof.
  induction n as [| k IH]; intros arr calls; simpl.
  - unfold ret, window. simpl. now rewrite app_nil_r, Nat.add_0_r.
  - unfold bind, random_digit. rewrite IH. unfold window. simpl.
    rewrite <- app_assoc. simpl. f_equal. lia.
Qed.

Lemma genRanHex_window rnd size calls :
  genRanHex rnd size calls
  = Returned (JS.join (map JS.toString16 (window rnd calls size)))
             (calls + size)%nat.
Proof.
  unfold genRanHex, bind. rewrite genRanHex_loop_window. reflexivity.
Qed.

Lemma read_digits_join ds :
  Forall (fun d => 0 <= d < 16) ds ->
  forall acc,
    JS.read_digits JS.hex_val 16 acc (JS.join (map JS.toString16 ds))
    = Some (digits_value acc ds).
Proof.
  induction 1 as [| d ds Hd _ IH]; intros acc; simpl.
  - reflexivity.
  - rewrite (toString16_digit d Hd). simpl.
    rewrite (hex_val_hex_char d Hd). apply IH.
Qed.

Lemma window_digits rnd calls size :
  (forall i, 0 <= rnd i < 16) ->
  Forall (fun d => 0 <= d < 16) (window rnd calls size).
Proof.
  intros H. unfold window. apply Forall_forall. intros d Hin.
  apply in_map_iff in Hin as (i & <- & _). apply H.
Qed.

(** With digits in 0..15, a draw reads 40 of them and always returns. *)
Lemma draw_candidate_returns rnd calls :
  (forall i, 0 <= rnd i < 16) ->
  draw_candidate rnd calls
  = Returned (digits_value 0 (window rnd calls 40)) (calls + 40)%nat.
Proof.
  intros H. unfold draw_candidate, bind. rewrite genRanHex_window.
  unfold BigNumber_from, BigNumber.from. cbn [append].
  unfold BigNumber.from_unsigned, JS.read_number.
  pose proof (read_digits_join _ (window_digits rnd calls 40 H) 0) as R.
  destruct (JS.join (map JS.toString16 (window rnd calls 40))) as [| c s] eqn:J.
  - unfold window in J. simpl in J.
    rewrite (toString16_digit _ (H calls)) in J. discriminate.
  - rewrite R. reflexivity.
Qed.

Lemma draw_candidate_drawn rnd calls :
  (forall i, 0 <= rnd i < 16) ->
  draw_candidate rnd calls = Returned (drawn rnd calls) (calls + 40)%nat.
Proof.
  intros H. unfold drawn. now rewrite (draw_candidate_returns rnd calls H).
Qed.

Lemma digits_value_bounds ds :
  Forall (fun d => 0 <= d < 16) ds ->
  forall acc, 0 <= acc ->
    0 <= digits_value acc ds < (acc + 1) * 16 ^ Z.of_nat (List.length ds).
Proof.
  induction 1 as [| d ds Hd _ IH]; intros acc Hacc.
  - simpl. lia.
  - cbn [digits_value fold_left List.length].
    fold (digits_value (16 * acc + d) ds).
    specialize (IH (16 * acc + d) ltac:(lia)).
    rewrite Nat2Z.inj_succ, Z.pow_succ_r by lia.
    assert (0 < 16 ^ Z.of_nat (List.length ds)) by (apply Z.pow_pos_nonneg; lia).
    nia.
Qed.

(** Every candidate is a 160-bit value. *)
Lemma drawn_160_bit rnd calls :
  (forall i, 0 <= rnd i < 16) -> 0 <= drawn rnd calls < 2 ^ 160.
Proof.
  intros H. unfold drawn. rewrite (draw_candidate_returns rnd calls H).
  pose proof (digits_value_bounds _ (window_digits rnd calls 40 H) 0 ltac:(lia)) as B.
  unfold window in B. rewrite length_map, length_seq in B.
  change ((0 + 1) * 16 ^ Z.of_nat 40) with (2 ^ 160) in B. exact B.
Qed.

(** The first index at which a boolean sequence holds. *)
Lemma bounded_search (f : nat -> bool) n :
  (forall k, (k < n)%nat -> f k = false) \/
  (exists m, (m < n)%nat /\ f m = true /\ forall k, (k < m)%nat -> f k = false).
Proof.
  induction n as [| n [All | (m & Hm & Fm & Least)]].
  - left. intros k Hk. lia.
  - destruct (f n) eqn:Fn.
    + right. exists n. repeat split; [lia | assumption | assumption].
    + left. intros k Hk. destruct (Nat.eq_dec k n) as [-> |]; [assumption |].
      apply All. lia.
  - right. exists m. repeat split; [lia | assumption | assumption].
Qed.

Lemma first_true (f : nat -> bool) :
  (exists n, f n = true) ->
  exists m, f m = true /\ forall k, (k < m)%nat -> f k = false.
Proof.
  intros (n & Fn).
  destruct (bounded_search f (S n)) as [All | (m & _ & Fm & Least)].
  - rewrite All in Fn by lia. discriminate.
  - now exists m.
Qed.

Section Search.

Variable rnd : nat -> Z.
Hypothesis rnd_digit : forall i, 0 <= rnd i < 16.

Variable signerAddress : string.
Variable limits : Z * Z.
(** Where the random source stood when [resolveChallenge] was entered. *)
Variable calls : nat.

Local Abbreviation cand := (candidate rnd calls).
Local Abbreviation hits := (hit rnd signerAddress limits calls).

Lemma draw_next (j : nat) :
  draw_candidate rnd (calls + 40 * (j + 1))%nat
  = Returned (cand (j + 1)) (calls + 40 * (j + 1 + 1))%nat.
Proof.
  rewrite (draw_candidate_drawn rnd _ rnd_digit). unfold candidate.
  f_equal. lia.
Qed.

(** If the next [d] candidates miss and the one after hits, the loop
    returns that one, having drawn exactly up to it. *)
Lemma search_hit d :
  forall j fuel,
    (forall k, (j <= k < j + d)%nat -> hits k = false) ->
    hits (j + d) = true ->
    (d < fuel)%nat ->
    search rnd fuel signerAddress limits (cand j) (calls + 40 * (j + 1))%nat
    = Returned (cand (j + d)) (calls + 40 * (j + d + 1))%nat.
Proof.
  induction d as [| d IH]; intros j fuel Miss Hit Fuel;
    destruct fuel as [| f]; try lia; cbn [search].
  - rewrite Nat.add_0_r in Hit. unfold hit in Hit. rewrite Hit.
    unfold ret. now rewrite !Nat.add_0_r.
  - assert (M : hits j = false) by (apply Miss; lia).
    unfold hit in M. rewrite M.
    rewrite (bind_returned _ _ _ _ _ (draw_next j)).
    rewrite (IH (j + 1)%nat f).
    + f_equal; f_equal; lia.
    + intros k Hk. apply Miss. lia.
    + replace (j + 1 + d)%nat with (j + S d)%nat by lia. exact Hit.
    + lia.
Qed.

(** While candidates miss, the loop is still running. *)
Lemma search_miss fuel :
  forall j,
    (forall k, (j <= k < j + fuel)%nat -> hits k = false) ->
    search rnd fuel signerAddress limits (cand j) (calls + 40 * (j + 1))%nat
    = Running.
Proof.
  induction fuel as [| f IH]; intros j Miss; cbn [search].
  - reflexivity.
  - assert (M : hits j = false) by (apply Miss; lia).
    unfold hit in M. rewrite M.
    rewrite (bind_returned _ _ _ _ _ (draw_next j)).
    apply IH. intros k Hk. apply Miss. lia.
Qed.

(** The loop has no throwing exit. *)
Lemma search_never_throws fuel :
  forall key pos e c,
    search rnd fuel signerAddress limits key pos <> Threw e c.
Proof.
  induction fuel as [| f IH]; intros key pos e c; cbn [search].
  - discriminate.
  - destruct (resolved signerAddress limits key).
    + discriminate.
    + rewrite (bind_returned _ _ _ _ _ (draw_candidate_drawn rnd pos rnd_digit)).
      apply IH.
Qed.

End Search.

(** [resolveChallenge] on a well-formed signer is its loop, entered with
    the first candidate. *)
Lemma resolveChallenge_unfold rnd fuel signerAddress signer calls :
  (forall i, 0 <= rnd i < 16) ->
  BigNumber.from signerAddress = Some signer ->
  resolveChallenge rnd fuel signerAddress calls
  = search rnd fuel signerAddress (limits_of signer)
           (candidate rnd calls 0) (calls + 40 * (0 + 1))%nat.
Proof.
  intros Hrnd Hs. unfold resolveChallenge, bind at 1, BigNumber_from.
  rewrite Hs. cbn [or_throw ret].
  pose proof (draw_candidate_drawn rnd calls Hrnd) as D.
  rewrite (bind_returned _ _ _ _ _ D). unfold candidate.
  replace (calls + 40 * 0)%nat with calls by lia.
  replace (calls + 40 * (0 + 1))%nat with (calls + 40)%nat by lia.
  reflexivity.
Qed.

(** *** Random sources that make the search arbitrarily long *)

Lemma hex_val_range c d : JS.hex_val c = Some d -> 0 <= d < 16.
Proof.
  unfold JS.hex_val. set (code := Z.of_N (N_of_ascii c)).
  destruct ((48 <=? code) && (code <=? 57)) eqn:D;
    [| destruct ((97 <=? code) && (code <=? 102)) eqn:L;
       [| destruct ((65 <=? code) && (code <=? 70)) eqn:U]];
    intros H; try discriminate; injection H as <-;
    match goal with
    | E : _ && _ = true |- _ =>
        apply andb_true_iff in E as [Lo Hi];
        apply Z.leb_le in Lo; apply Z.leb_le in Hi; lia
    end.
Qed.

Lemma nth_Forall {A} (P : A -> Prop) (l : list A) (d : A) :
  Forall P l -> P d -> forall i, P (nth i l d).
Proof.
  intros Hl Hd. induction Hl as [| x l Hx _ IH]; intros [| i]; simpl; auto.
Qed.

Lemma stream_digit s i : 0 <= Fixtures.stream s i < 16.
Proof.
  unfold Fixtures.stream, Fixtures.digits_of.
  apply (nth_Forall (fun d => 0 <= d < 16)); [| lia].
  apply Forall_forall. intros d Hin.
  apply in_map_iff in Hin as (c & <- & _).
  destruct (JS.hex_val c) eqn:E; [eapply hex_val_range; eassumption | lia].
Qed.

Lemma late_source_digit n i : 0 <= late_source n i < 16.
Proof.
  unfold late_source. destruct (i <? 40 * n)%nat; [lia | apply stream_digit].
Qed.

Lemma window_shift rnd1 rnd2 size :
  forall p1 p2,
    (forall i, (i < size)%nat -> rnd1 (p1 + i)%nat = rnd2 (p2 + i)%nat) ->
    window rnd1 p1 size = window rnd2 p2 size.
Proof.
  unfold window. induction size as [| k IH]; intros p1 p2 H; simpl.
  - reflexivity.
  - f_equal.
    + specialize (H 0%nat ltac:(lia)). now rewrite !Nat.add_0_r in H.
    + apply IH. intros i Hi. specialize (H (S i) ltac:(lia)).
      now rewrite !Nat.add_succ_r in H.
Qed.

Lemma late_source_misses n k :
  (k < n)%nat -> candidate (late_source n) 0 k = 0.
Proof.
  intros Hk. unfold candidate, drawn.
  rewrite (draw_candidate_returns _ _ (late_source_digit n)).
  rewrite (window_shift _ (fun _ => 0) 40 _ 0%nat).
  - vm_compute. reflexivity.
  - intros i Hi. unfold late_source.
    destruct (Nat.ltb_spec (0 + 40 * k + i) (40 * n)); [reflexivity | lia].
Qed.

Lemma late_source_hits n :
  candidate (late_source n) 0 n = Fixtures.good_key.
Proof.
  unfold candidate, drawn.
  rewrite (draw_candidate_returns _ _ (late_source_digit n)).
  rewrite (window_shift _ (Fixtures.stream Fixtures.good_digits) 40 _ 0%nat).
  - vm_compute. reflexivity.
  - intros i Hi. unfold late_source.
    destruct (Nat.ltb_spec (0 + 40 * n + i) (40 * n)); [lia |].
    f_equal. lia.
Qed.

(** X16. For a 160-bit signer and a random source of hexadecimal digits:
    - if some candidate of the source satisfies the loop's test (in range
      and XOR byte equal to 69, as [resolved] computes them), then
      [resolveChallenge] returns the first such candidate, a 160-bit value,
      once the loop is allowed more than [n] tests, and is still running
      before that;
    - no run throws;
    - a source none of whose candidates satisfies the test keeps the call
      running at every budget;
    - for every [n] there is a source for which the call needs [n + 1]
      draws: nothing caps the number of iterations. *)
Theorem resolveChallenge_terminates rnd signerAddress signer calls :
  BigNumber.from signerAddress = Some signer ->
  0 <= signer < 2 ^ 160 ->
  (forall i, 0 <= rnd i < 16) ->
  ((exists n, hit rnd signerAddress (limits_of signer) calls n = true) ->
   exists n key,
     hit rnd signerAddress (limits_of signer) calls n = true /\
     key = candidate rnd calls n /\
     0 <= key < 2 ^ 160 /\
     (forall fuel, (n < fuel)%nat ->
        resolveChallenge rnd fuel signerAddress calls
        = Returned key (calls + 40 * (n + 1))%nat) /\
     (forall fuel, (fuel <= n)%nat ->
        resolveChallenge rnd fuel signerAddress calls = Running)) /\
  (forall fuel e c,
     resolveChallenge rnd fuel signerAddress calls <> Threw e c) /\
  ((forall n, hit rnd signerAddress (limits_of signer) calls n = false) ->
   forall fuel, resolveChallenge rnd fuel signerAddress calls = Running) /\
  (forall n, exists rnd' key,
     (forall i, 0 <= rnd' i < 16) /\
     (forall fuel, (n < fuel)%nat ->
        resolveChallenge rnd' fuel Fixtures.zero_address 0%nat
        = Returned key (40 * (n + 1))%nat) /\
     (forall fuel, (fuel <= n)%nat ->
        resolveChallenge rnd' fuel Fixtures.zero_address 0%nat = Running)).
Proof.
  intros Hs _ Hrnd. repeat split.
  - intros Ex. apply first_true in Ex as (n & Hit & Least).
    exists n, (candidate rnd calls n).
    split; [exact Hit |]. split; [reflexivity |].
    split; [apply drawn_160_bit; exact Hrnd |]. split.
    + intros fuel Hf. rewrite (resolveChallenge_unfold _ _ _ _ _ Hrnd Hs).
      apply (search_hit rnd Hrnd signerAddress (limits_of signer) calls n 0%nat fuel).
      * intros k Hk. apply Least. lia.
      * exact Hit.
      * exact Hf.
    + intros fuel Hf. rewrite (resolveChallenge_unfold _ _ _ _ _ Hrnd Hs).
      apply (search_miss rnd Hrnd). intros k Hk. apply Least. lia.
  - intros fuel e c. rewrite (resolveChallenge_unfold _ _ _ _ _ Hrnd Hs).
    apply search_never_throws. exact Hrnd.
  - intros Miss fuel. rewrite (resolveChallenge_unfold _ _ _ _ _ Hrnd Hs).
    apply (search_miss rnd Hrnd). intros k _. apply Miss.
  - intros n. exists (late_source n), Fixtures.good_key.
    assert (Z0 : BigNumber.from Fixtures.zero_address = Some 0) by reflexivity.
    assert (Misses : forall k, (k < n)%nat ->
              hit (late_source n) Fixtures.zero_address (limits_of 0) 0 k = false).
    { intros k Hk. unfold hit. rewrite (late_source_misses n k Hk).
      vm_compute. reflexivity. }
    assert (Hits : hit (late_source n) Fixtures.zero_address (limits_of 0) 0 n = true).
    { unfold hit. rewrite late_source_hits. vm_compute. reflexivity. }
    split; [apply late_source_digit |]. split.
    + intros fuel Hf.
      rewrite (resolveChallenge_unfold _ _ _ _ _ (late_source_digit n) Z0).
      rewrite <- (late_source_hits n).
      apply (search_hit _ (late_source_digit n) Fixtures.zero_address
                        (limits_of 0) 0%nat n 0%nat fuel).
      * intros k Hk. apply Misses. lia.
      * exact Hits.
      * exact Hf.
    + intros fuel Hf.
      rewrite (resolveChallenge_unfold _ _ _ _ _ (late_source_digit n) Z0).
      apply (search_miss _ (late_source_digit n)).
      intros k Hk. apply Misses. lia.
Qed.

Lemma resolveChallenge_terminates_witness :
  exists n key,
    hit (Fixtures.stream Fixtures.good_digits) Fixtures.zero_address
        (limits_of 0) 0 n = true /\
    key = candidate (Fixtures.stream Fixtures.good_digits) 0 n /\
    0 <= key < 2 ^ 160 /\
    (forall fuel, (n < fuel)%nat ->
       resolveChallenge (Fixtures.stream Fixtures.good_digits) fuel
                        Fixtures.zero_address 0%nat
       = Returned key (0 + 40 * (n + 1))%nat) /\
    (forall fuel, (fuel <= n)%nat ->
       resolveChallenge (Fixtures.stream Fixtures.good_digits) fuel
                        Fixtures.zero_address 0%nat = Running).
Proof.
  apply (resolveChallenge_terminates (Fixtures.stream Fixtures.good_digits)
           Fixtures.zero_address 0 0%nat).
  - reflexivity.
  - lia.
  - apply stream_digit.
  - exists 0%nat. vm_compute. reflexivity.
Defined.

(* ===================================================================== *)
(** ** [swapCallParameters]: proofs *)

(** The resolution shared by the example runs: the first draw is the
    key. *)
Lemma caller_resolves :
  resolveChallenge Trades.source 1 Trades.caller 0%nat
  = Returned Fixtures.good_key 40%nat.
Proof. vm_compute. reflexivity. Defined.

(** Enters [swapCallParameters] past a resolution that returned. *)
Ltac after_resolution H :=
  unfold swapCallParameters;
  rewrite (bind_returned _ _ _ _ _ H).

Ltac split_on f :=
  repeat match goal with
         | |- context [f ?x] => destruct (f x)
         | H : context [f ?x] |- _ => destruct (f x)
         end.

(** Splits on every test the function makes. *)
Ltac split_tests :=
  unfold both_native, ttl_violation, fot_violation, deadline_hex,
    etherIn, etherOut, has_ttl in *;
  cbn [recipient allowedSlippage expiry feeOnTransfer Boolean
       with_fee with_slippage] in *;
  split_on is_ETHER; split_on tradeType; split_on Boolean; split_on expiry;
  unfold bind, invariant, or_throw, ret, throw in *;
  cbn [negb andb orb] in *;
  repeat match goal with
         | |- context [0 <? ?t] => destruct (Z.ltb_spec 0 t)
         | H : context [0 <? ?t] |- _ => destruct (Z.ltb_spec 0 t)
         | |- context [?t <=? 0] => destruct (Z.leb_spec t 0)
         | H : context [?t <=? 0] |- _ => destruct (Z.leb_spec t 0)
         end;
  cbv beta iota in *;
  try discriminate; try lia.

(** The table has nine rows: six for exact input, three for exact
    output. *)
Example decision_table_rows :
  List.length
    (filter (fun c : TradeType * bool * bool * bool =>
               let '(direction, i, o, f) := c in
               match decision_table direction i o f with
               | Some _ => true
               | None => false
               end)
            (list_prod
               (list_prod (list_prod [EXACT_INPUT; EXACT_OUTPUT] [true; false])
                          [true; false])
               [true; false]))
  = 9%nat.
Proof. reflexivity. Qed.

(** C1. On a valid input (the resolver returned, the legs are not both
    native, a time-to-live is positive, the recipient validates, the
    maximum input is computed, and exact output is not combined with
    fee-on-transfer) the decision table has a row for the trade's
    combination and [swapCallParameters] returns that row: its method, its
    arguments in its order followed by the hex-encoded challenge key, and
    its value, which is the hex-encoded maximum input exactly when the
    input leg is native and 0x0 otherwise. *)
Theorem swapCallParameters_decision_table
        rnd validateAndParseAddress now fuel trade options caller
        calls key calls' to maxIn :
  resolveChallenge rnd fuel caller calls = Returned key calls' ->
  both_native trade = false ->
  ttl_violation options = false ->
  fot_violation trade options = false ->
  validateAndParseAddress (recipient options) = Some to ->
  maximumAmountIn trade (allowedSlippage options) = Some maxIn ->
  exists row,
    decision_table (tradeType trade) (etherIn trade) (etherOut trade)
                   (Boolean (feeOnTransfer options)) = Some row /\
    swapCallParameters rnd validateAndParseAddress now fuel trade options
                       caller calls
    = Returned
        {| methodName := row_method row;
           args := (map (fill (toHex maxIn)
                              (map address (path (route trade)))
                              to (deadline_hex now options))
                        (row_args row)
                    ++ [Str (BigNumber.toHexString key)])%list;
           value := native_value (toHex maxIn) (row_value row) |}
        calls' /\
    native_value (toHex maxIn) (row_value row)
    = (if etherIn trade then toHex maxIn else "0x0").
Proof.
  intros Hkey Hnative Httl Hfot Hto Hmax.
  after_resolution Hkey. rewrite Hto, Hmax.
  split_tests;
    (eexists; split; [reflexivity | split; reflexivity]).
Qed.

Lemma swapCallParameters_decision_table_witness :
  exists row,
    decision_table EXACT_INPUT false false false = Some row /\
    swapCallParameters Trades.source Trades.accept Trades.clock 1
                       Trades.tokens_for_tokens
                       (Trades.options_with (Ttl 1200) None)
                       Trades.caller 0%nat
    = Returned
        {| methodName := row_method row;
           args := (map (fill "0x64"
                              [address Trades.tokenA; address Trades.tokenB]
                              "0x2222222222222222222222222222222222222222"
                              "0x6553f5b0")
                        (row_args row)
                    ++ [Str "0x1000000000000000000000000000000000000045"])%list;
           value := native_value "0x64" (row_value row) |}
        40%nat /\
    native_value "0x64" (row_value row) = "0x0".
Proof.
  apply (swapCallParameters_decision_table
           Trades.source Trades.accept Trades.clock 1
           Trades.tokens_for_tokens (Trades.options_with (Ttl 1200) None)
           Trades.caller 0%nat Fixtures.good_key 40%nat
           "0x2222222222222222222222222222222222222222"
           (Trades.hundred (TokenCurrency Trades.tokenA)));
    reflexivity.
Defined.

(** Takes apart a run of [swapCallParameters] given as hypothesis [H]. *)
Ltac invert_run H :=
  unfold swapCallParameters in H; unfold bind at 1 in H;
  match type of H with
  | context [resolveChallenge ?r ?f ?c ?n] =>
      destruct (resolveChallenge r f c n) as [?key ?calls1 | ?e ?calls1 |];
      try discriminate H
  end;
  cbn [recipient allowedSlippage expiry feeOnTransfer Boolean
       with_fee with_slippage] in H;
  match type of H with
  | context [or_throw (InvalidAddress _) ?v] => destruct v; try discriminate H
  end;
  match type of H with
  | context [or_throw TradeError ?m] => destruct m
  end;
  split_tests.

(** C4. Whatever slippage tolerance the options carry, the output-amount
    argument of a returned call is the zero scalar 0x0. *)
Theorem swapCallParameters_amountOut_zero
        rnd validateAndParseAddress now fuel trade options slippage caller
        calls call calls' :
  swapCallParameters rnd validateAndParseAddress now fuel trade
                     (with_slippage options slippage) caller calls
  = Returned call calls' ->
  nth_error (args call) (amountOut_index trade) = Some (Str "0x0").
Proof.
  intros H. unfold amountOut_index.
  invert_run H;
    injection H as <- _; reflexivity.
Qed.

Lemma swapCallParameters_amountOut_zero_witness :
  nth_error
    [Str "0x64"; Str "0x0";
     Strs [address Trades.tokenA; address Trades.tokenB];
     Str "0x2222222222222222222222222222222222222222";
     Str "0x6553f5b0"; Str "0x1000000000000000000000000000000000000045"]
    (amountOut_index Trades.tokens_for_tokens)
  = Some (Str "0x0").
Proof.
  apply (swapCallParameters_amountOut_zero
           Trades.source Trades.accept Trades.clock 1
           Trades.tokens_for_tokens (Trades.options_with (Ttl 1200) None)
           {| numerator := 1; denominator := 3 |}
           Trades.caller 0%nat
           {| methodName := "swapExactTokensForTokens";
              args := [Str "0x64"; Str "0x0";
                       Strs [address Trades.tokenA; address Trades.tokenB];
                       Str "0x2222222222222222222222222222222222222222";
                       Str "0x6553f5b0";
                       Str "0x1000000000000000000000000000000000000045"];
              value := "0x0" |}
           40%nat).
  vm_compute. reflexivity.
Defined.

(** Up to 2^53 in magnitude an integer is a double, and the sum of the
    code is the sum of the integers. *)
Lemma round_double_exact n : Z.abs n <= 2 ^ 53 -> JS.round_double n = n.
Proof.
  intros H. unfold JS.round_double.
  destruct (Z.ltb_spec (Z.abs n) (2 ^ 53)) as [| Ge]; [reflexivity |].
  change (2 ^ 53) with 9007199254740992 in H, Ge.
  assert (E : n = 9007199254740992 \/ n = - 9007199254740992) by lia.
  destruct E as [-> | ->]; vm_compute; reflexivity.
Qed.

Lemma add_exact a b :
  Z.abs (a + b) <= 2 ^ 53 -> JS.add a b = JS.Finite (a + b).
Proof.
  intros H. unfold JS.add. rewrite (round_double_exact _ H).
  assert (B : 2 ^ 53 < 2 ^ 1024) by (apply Z.pow_lt_mono_r; lia).
  destruct (Z.ltb_spec (Z.abs (a + b)) (2 ^ 1024)); [reflexivity | lia].
Qed.

(** Past 2^53 the sum is rounded: with the clock at 1700000001 seconds and
    a time-to-live of 2^53 the deadline is 0x2000006553f100, the exact sum
    being 0x2000006553f101. *)
Example deadline_rounds_past_2_53 :
  JS.number_toString16 (JS.add (1700000001999 / 1000) (2 ^ 53))
  = "2000006553f100" /\
  JS.toString16 (1700000001999 / 1000 + 2 ^ 53) = "2000006553f101".
Proof. split; vm_compute; reflexivity. Qed.

(** C7. In a returned call the deadline argument, the one before the
    trailing challenge key, is: with a time-to-live, the hexadecimal of
    the clock's epoch seconds plus the time-to-live, the sum being the one
    of JavaScript numbers, which is the sum of the integers whenever that
    is at most 2^53 in magnitude; with a deadline, the hexadecimal of the
    deadline. *)
Theorem swapCallParameters_deadline
        rnd validateAndParseAddress now fuel trade options caller
        calls call calls' :
  swapCallParameters rnd validateAndParseAddress now fuel trade options
                     caller calls
  = Returned call calls' ->
  (forall ttl, expiry options = Ttl ttl ->
     nth_error (args call) (List.length (args call) - 2)
     = Some (Str ("0x" ++ JS.number_toString16 (JS.add (now / 1000) ttl)))) /\
  (forall ttl, expiry options = Ttl ttl ->
     Z.abs (now / 1000 + ttl) <= 2 ^ 53 ->
     nth_error (args call) (List.length (args call) - 2)
     = Some (Str ("0x" ++ JS.toString16 (now / 1000 + ttl)))) /\
  (forall deadline, expiry options = Deadline deadline ->
     nth_error (args call) (List.length (args call) - 2)
     = Some (Str ("0x" ++ JS.toString16 deadline))).
Proof.
  intros H.
  assert (Sum : forall ttl, expiry options = Ttl ttl ->
            nth_error (args call) (List.length (args call) - 2)
            = Some (Str ("0x" ++ JS.number_toString16
                                   (JS.add (now / 1000) ttl)))).
  { intros x Hx. invert_run H;
      injection Hx as <-; injection H as <- _; reflexivity. }
  split; [exact Sum | split].
  - intros ttl E Small. rewrite (Sum ttl E), (add_exact _ _ Small).
    reflexivity.
  - intros x Hx. invert_run H;
      injection Hx as <-; injection H as <- _; reflexivity.
Qed.

Lemma swapCallParameters_deadline_witness :
  (forall ttl, Ttl 1200 = Ttl ttl ->
     nth_error
       [Str "0x64"; Str "0x0";
        Strs [address Trades.tokenA; address Trades.tokenB];
        Str "0x2222222222222222222222222222222222222222";
        Str "0x6553f5b0"; Str "0x1000000000000000000000000000000000000045"]
       4
     = Some (Str ("0x" ++ JS.number_toString16
                            (JS.add (Trades.clock / 1000) ttl)))) /\
  (forall ttl, Ttl 1200 = Ttl ttl ->
     Z.abs (Trades.clock / 1000 + ttl) <= 2 ^ 53 ->
     nth_error
       [Str "0x64"; Str "0x0";
        Strs [address Trades.tokenA; address Trades.tokenB];
        Str "0x2222222222222222222222222222222222222222";
        Str "0x6553f5b0"; Str "0x1000000000000000000000000000000000000045"]
       4
     = Some (Str ("0x" ++ JS.toString16 (Trades.clock / 1000 + ttl)))) /\
  (forall deadline, Ttl 1200 = Deadline deadline ->
     nth_error
       [Str "0x64"; Str "0x0";
        Strs [address Trades.tokenA; address Trades.tokenB];
        Str "0x2222222222222222222222222222222222222222";
        Str "0x6553f5b0"; Str "0x1000000000000000000000000000000000000045"]
       4
     = Some (Str ("0x" ++ JS.toString16 deadline))).
Proof.
  apply (swapCallParameters_deadline
           Trades.source Trades.accept Trades.clock 1
           Trades.tokens_for_tokens (Trades.options_with (Ttl 1200) None)
           Trades.caller 0%nat
           {| methodName := "swapExactTokensForTokens";
              args := [Str "0x64"; Str "0x0";
                       Strs [address Trades.tokenA; address Trades.tokenB];
                       Str "0x2222222222222222222222222222222222222222";
                       Str "0x6553f5b0";
                       Str "0x1000000000000000000000000000000000000045"];
              value := "0x0" |}
           40%nat).
  vm_compute. reflexivity.
Defined.

(** C9. A call whose options leave [feeOnTransfer] absent runs exactly as
    the same call with [feeOnTransfer] set to [false]; when it returns, the
    method is the one the decision table gives with the fee flag off. *)
Theorem swapCallParameters_fee_absent
        rnd validateAndParseAddress now fuel trade options caller calls :
  swapCallParameters rnd validateAndParseAddress now fuel trade
                     (with_fee options None) caller calls
  = swapCallParameters rnd validateAndParseAddress now fuel trade
                       (with_fee options (Some false)) caller calls /\
  forall call calls',
    swapCallParameters rnd validateAndParseAddress now fuel trade
                       (with_fee options None) caller calls
    = Returned call calls' ->
    exists row,
      decision_table (tradeType trade) (etherIn trade) (etherOut trade) false
      = Some row /\
      methodName call = row_method row.
Proof.
  split; [reflexivity |].
  intros call calls' H.
  invert_run H;
    injection H as <- _; eexists; split; reflexivity.
Qed.

Lemma swapCallParameters_fee_absent_witness :
  exists row,
    decision_table EXACT_INPUT false false false = Some row /\
    "swapExactTokensForTokens" = row_method row.
Proof.
  apply (proj2 (swapCallParameters_fee_absent
                  Trades.source Trades.accept Trades.clock 1
                  Trades.tokens_for_tokens
                  (Trades.options_with (Ttl 1200) (Some true))
                  Trades.caller 0%nat)
               {| methodName := "swapExactTokensForTokens";
                  args := [Str "0x64"; Str "0x0";
                           Strs [address Trades.tokenA; address Trades.tokenB];
                           Str "0x2222222222222222222222222222222222222222";
                           Str "0x6553f5b0";
                           Str "0x1000000000000000000000000000000000000045"];
                  value := "0x0" |}
               40%nat).
  vm_compute. reflexivity.
Defined.

(** The only exceptions [resolveChallenge] can raise are those of a
    string that is no usable BigNumber. *)
Lemma BigNumber_error_kind value :
  exists v, BigNumber_error value = InvalidBigNumber v \/
            BigNumber_error value = InvalidCharacter v.
Proof.
  exists value. unfold BigNumber_error.
  destruct (BigNumber.upper_prefix value); auto.
Qed.

Lemma draw_candidate_throws_only_bignumber rnd calls e c :
  draw_candidate rnd calls = Threw e c ->
  exists v, e = InvalidBigNumber v \/ e = InvalidCharacter v.
Proof.
  intros D. unfold draw_candidate, bind in D. rewrite genRanHex_window in D.
  unfold BigNumber_from, or_throw in D.
  destruct (BigNumber.from _); [discriminate |].
  injection D as <- _. apply BigNumber_error_kind.
Qed.

Lemma search_throws_only_bignumber rnd fuel signerAddress limits :
  forall key calls e c,
    search rnd fuel signerAddress limits key calls = Threw e c ->
    exists v, e = InvalidBigNumber v \/ e = InvalidCharacter v.
Proof.
  induction fuel as [| f IH]; intros key calls e c H; cbn [search] in H.
  - discriminate.
  - destruct (resolved signerAddress limits key); [discriminate |].
    unfold bind in H.
    destruct (draw_candidate rnd calls) as [next c1 | e1 c1 |] eqn:D;
      [eauto | | discriminate].
    injection H as <- <-.
    eapply draw_candidate_throws_only_bignumber; eassumption.
Qed.

Lemma resolveChallenge_throws_only_bignumber rnd fuel signerAddress calls e c :
  resolveChallenge rnd fuel signerAddress calls = Threw e c ->
  exists v, e = InvalidBigNumber v \/ e = InvalidCharacter v.
Proof.
  unfold resolveChallenge, bind at 1, BigNumber_from, or_throw. intros H.
  destruct (BigNumber.from signerAddress).
  - cbn [ret] in H. unfold bind in H.
    destruct (draw_candidate rnd calls) as [next c1 | e1 c1 |] eqn:D.
    + eapply search_throws_only_bignumber; eassumption.
    + injection H as <- <-.
      eapply draw_candidate_throws_only_bignumber; eassumption.
    + discriminate.
  - injection H as <- _. apply BigNumber_error_kind.
Qed.

(** C10. With an absolute deadline in the options the TTL invariant never
    fails, whatever the deadline; on an otherwise valid input the call
    returns and its deadline argument is the hexadecimal of the deadline
    as given, without any test of its sign or range. *)
Theorem swapCallParameters_deadline_unchecked
        rnd validateAndParseAddress now fuel trade options caller calls
        deadline :
  expiry options = Deadline deadline ->
  (forall c,
     swapCallParameters rnd validateAndParseAddress now fuel trade options
                        caller calls
     <> Threw (Invariant "TTL") c) /\
  (forall key calls' to maxIn,
     resolveChallenge rnd fuel caller calls = Returned key calls' ->
     both_native trade = false ->
     fot_violation trade options = false ->
     validateAndParseAddress (recipient options) = Some to ->
     maximumAmountIn trade (allowedSlippage options) = Some maxIn ->
     exists call,
       swapCallParameters rnd validateAndParseAddress now fuel trade options
                          caller calls
       = Returned call calls' /\
       nth_error (args call) (List.length (args call) - 2)
       = Some (Str ("0x" ++ JS.toString16 deadline))).
Proof.
  intros E. split.
  - intros c H. unfold swapCallParameters in H. unfold bind at 1 in H.
    destruct (resolveChallenge rnd fuel caller calls) as [key c1 | e c1 |] eqn:R.
    + destruct (validateAndParseAddress (recipient options));
        destruct (maximumAmountIn trade (allowedSlippage options));
        split_tests.
    + apply resolveChallenge_throws_only_bignumber in R as (v & [-> | ->]);
        discriminate.
    + discriminate.
  - intros key calls' to maxIn Hkey Hnative Hfot Hto Hmax.
    after_resolution Hkey. rewrite Hto, Hmax.
    split_tests;
      injection E as <-; eexists; split; reflexivity.
Qed.

Lemma swapCallParameters_deadline_unchecked_witness :
  exists call,
    swapCallParameters Trades.source Trades.accept Trades.clock 1
                       Trades.tokens_for_tokens
                       (Trades.options_with (Deadline 0) None)
                       Trades.caller 0%nat
    = Returned call 40%nat /\
    nth_error (args call) (List.length (args call) - 2) = Some (Str "0x0").
Proof.
  apply (proj2 (swapCallParameters_deadline_unchecked
                  Trades.source Trades.accept Trades.clock 1
                  Trades.tokens_for_tokens
                  (Trades.options_with (Deadline 0) None)
                  Trades.caller 0%nat 0 eq_refl)
               Fixtures.good_key 40%nat
               "0x2222222222222222222222222222222222222222"
               (Trades.hundred (TokenCurrency Trades.tokenA)));
    reflexivity.
Defined.

(* ===================================================================== *)
(** ** [swapCallParameters]: when and why it fails *)

(** A failing call has consumed randomness: with both legs native the run
    ends in ETHER_IN_OUT only after the forty draws of the resolver, so it
    does not fail with the random source untouched. *)
Lemma invariant_failure_consumes_randomness :
  both_native Trades.native_for_native = true /\
  swapCallParameters Trades.source Trades.accept Trades.clock 1
                     Trades.native_for_native
                     (Trades.options_with (Ttl 1200) None)
                     Trades.caller 0%nat
  = Threw (Invariant "ETHER_IN_OUT") 40%nat /\
  ~ (exists e,
       swapCallParameters Trades.source Trades.accept Trades.clock 1
                          Trades.native_for_native
                          (Trades.options_with (Ttl 1200) None)
                          Trades.caller 0%nat
       = Threw e 0%nat).
Proof.
  assert (R : swapCallParameters Trades.source Trades.accept Trades.clock 1
                Trades.native_for_native
                (Trades.options_with (Ttl 1200) None) Trades.caller 0%nat
              = Threw (Invariant "ETHER_IN_OUT") 40%nat)
    by (vm_compute; reflexivity).
  split; [reflexivity | split; [exact R |]].
  intros (e & H). rewrite R in H. discriminate.
Qed.

(** C5 (amended). [swapCallParameters] runs the resolver first: what the
    resolver throws the call throws, and while the resolver runs the call
    runs.  Once the resolver has returned, having made its draws:
    - a both-native trade fails with ETHER_IN_OUT;
    - a trade whose legs are not both native, with a time-to-live that is
      zero or negative, fails with TTL;
      both whatever the recipient validator and the amount computation
      would do, so before either is used;
    - with neither of those, exact output with fee-on-transfer fails with
      EXACT_OUT_FOT only after the recipient has been validated and the
      maximum input computed: a failure of either of them comes first. *)
Theorem swapCallParameters_fails_after_resolution
        rnd validateAndParseAddress now fuel trade options caller calls :
  (forall e c,
     resolveChallenge rnd fuel caller calls = Threw e c ->
     swapCallParameters rnd validateAndParseAddress now fuel trade options
                        caller calls = Threw e c) /\
  (resolveChallenge rnd fuel caller calls = Running ->
   swapCallParameters rnd validateAndParseAddress now fuel trade options
                      caller calls = Running) /\
  (forall key calls',
     resolveChallenge rnd fuel caller calls = Returned key calls' ->
     (both_native trade = true ->
      swapCallParameters rnd validateAndParseAddress now fuel trade options
                         caller calls
      = Threw (Invariant "ETHER_IN_OUT") calls') /\
     (both_native trade = false ->
      ttl_violation options = true ->
      swapCallParameters rnd validateAndParseAddress now fuel trade options
                         caller calls
      = Threw (Invariant "TTL") calls') /\
     (both_native trade = false ->
      ttl_violation options = false ->
      fot_violation trade options = true ->
      swapCallParameters rnd validateAndParseAddress now fuel trade options
                         caller calls
      = match validateAndParseAddress (recipient options) with
        | None => Threw (InvalidAddress (recipient options)) calls'
        | Some _ =>
            match maximumAmountIn trade (allowedSlippage options) with
            | None => Threw TradeError calls'
            | Some _ => Threw (Invariant "EXACT_OUT_FOT") calls'
            end
        end)).
Proof.
  split; [| split].
  - intros e c H. unfold swapCallParameters.
    apply (bind_threw _ _ _ _ _ H).
  - intros H. unfold swapCallParameters. apply (bind_running _ _ _ H).
  - intros key calls' H. repeat split; intros; after_resolution H;
      destruct (validateAndParseAddress (recipient options));
      destruct (maximumAmountIn trade (allowedSlippage options));
      split_tests; reflexivity.
Qed.

Lemma swapCallParameters_fails_after_resolution_witness :
  swapCallParameters Trades.source Trades.reject Trades.clock 1
                     Trades.native_for_native
                     (Trades.options_with (Ttl 1200) None)
                     Trades.caller 0%nat
  = Threw (Invariant "ETHER_IN_OUT") 40%nat.
Proof.
  apply (proj1 (proj2 (proj2 (swapCallParameters_fails_after_resolution
                  Trades.source Trades.reject Trades.clock 1
                  Trades.native_for_native
                  (Trades.options_with (Ttl 1200) None)
                  Trades.caller 0%nat))
               Fixtures.good_key 40%nat caller_resolves)).
  reflexivity.
Defined.

(** The place of the third invariant, on a trade for an exact output with
    fee-on-transfer requested: a recipient that does not validate is
    reported first; with a valid one the call fails with EXACT_OUT_FOT. *)
Example exact_out_fot_after_validation :
  swapCallParameters Trades.source Trades.reject Trades.clock 1
                     Trades.tokens_for_exact_tokens
                     (Trades.options_with (Ttl 1200) (Some true))
                     Trades.caller 0%nat
  = Threw (InvalidAddress "0x2222222222222222222222222222222222222222")
          40%nat /\
  swapCallParameters Trades.source Trades.accept Trades.clock 1
                     Trades.tokens_for_exact_tokens
                     (Trades.options_with (Ttl 1200) (Some true))
                     Trades.caller 0%nat
  = Threw (Invariant "EXACT_OUT_FOT") 40%nat.
Proof. split; vm_compute; reflexivity. Qed.

(** With a random source that only yields zeros the resolver of the zero
    address never finds a key, and a call that violates an invariant does
    not fail: it is still running at every budget. *)
Example invalid_call_keeps_running fuel :
  swapCallParameters (fun _ => 0) Trades.accept Trades.clock fuel
                     Trades.native_for_native
                     (Trades.options_with (Ttl 0) None)
                     Fixtures.zero_address 0%nat
  = Running.
Proof.
  assert (Digit : forall i : nat, 0 <= (fun _ : nat => 0) i < 16) by (intros; lia).
  assert (Z0 : BigNumber.from Fixtures.zero_address = Some 0) by reflexivity.
  unfold swapCallParameters. apply bind_running.
  rewrite (resolveChallenge_unfold _ _ _ 0 _ Digit Z0).
  apply (search_miss _ Digit). intros k _.
  unfold hit, candidate, drawn.
  rewrite (draw_candidate_returns _ _ Digit).
  rewrite (window_shift _ (fun _ => 0) 40 _ 0%nat) by reflexivity.
  vm_compute. reflexivity.
Qed.

(** Two violations at once have one reason: a both-native trade with a
    time-to-live of zero fails with ETHER_IN_OUT, hence not with TTL. *)
Lemma zero_ttl_both_native_fails_ether_in_out :
  ttl_violation (Trades.options_with (Ttl 0) None) = true /\
  swapCallParameters Trades.source Trades.accept Trades.clock 1
                     Trades.native_for_native
                     (Trades.options_with (Ttl 0) None)
                     Trades.caller 0%nat
  = Threw (Invariant "ETHER_IN_OUT") 40%nat /\
  (forall c,
     swapCallParameters Trades.source Trades.accept Trades.clock 1
                        Trades.native_for_native
                        (Trades.options_with (Ttl 0) None)
                        Trades.caller 0%nat
     <> Threw (Invariant "TTL") c).
Proof.
  assert (R : swapCallParameters Trades.source Trades.accept Trades.clock 1
                Trades.native_for_native
                (Trades.options_with (Ttl 0) None) Trades.caller 0%nat
              = Threw (Invariant "ETHER_IN_OUT") 40%nat)
    by (vm_compute; reflexivity).
  split; [reflexivity | split; [exact R |]].
  intros c H. rewrite R in H. discriminate.
Qed.

(** C6 (amended). Once the resolver has returned, the checks apply in
    order and the first violated one gives the reason:
    - ETHER_IN_OUT exactly when both legs are native;
    - TTL exactly when the legs are not both native and the options carry
      a time-to-live that is zero or negative;
    - EXACT_OUT_FOT exactly when neither of those holds, the recipient
      validates, the maximum input is computed, and the trade is exact
      output with fee-on-transfer requested;
    - with none of the three violated and a valid recipient and amount,
      the call returns a [SwapParameters]. *)
Theorem swapCallParameters_failure_reasons
        rnd validateAndParseAddress now fuel trade options caller
        calls key calls' :
  resolveChallenge rnd fuel caller calls = Returned key calls' ->
  ((exists c,
      swapCallParameters rnd validateAndParseAddress now fuel trade options
                         caller calls = Threw (Invariant "ETHER_IN_OUT") c)
   <-> both_native trade = true) /\
  ((exists c,
      swapCallParameters rnd validateAndParseAddress now fuel trade options
                         caller calls = Threw (Invariant "TTL") c)
   <-> both_native trade = false /\ ttl_violation options = true) /\
  ((exists c,
      swapCallParameters rnd validateAndParseAddress now fuel trade options
                         caller calls = Threw (Invariant "EXACT_OUT_FOT") c)
   <-> both_native trade = false /\
       ttl_violation options = false /\
       validateAndParseAddress (recipient options) <> None /\
       maximumAmountIn trade (allowedSlippage options) <> None /\
       fot_violation trade options = true) /\
  (both_native trade = false ->
   ttl_violation options = false ->
   validateAndParseAddress (recipient options) <> None ->
   maximumAmountIn trade (allowedSlippage options) <> None ->
   fot_violation trade options = false ->
   exists call,
     swapCallParameters rnd validateAndParseAddress now fuel trade options
                        caller calls = Returned call calls').
Proof.
  intros H. after_resolution H.
  destruct (validateAndParseAddress (recipient options));
    destruct (maximumAmountIn trade (allowedSlippage options));
    split_tests;
    repeat match goal with
           | |- _ /\ _ => split
           | |- _ <-> _ => split
           | |- _ -> _ => intro
           | Hx : exists _, _ |- _ => destruct Hx
           | Hx : _ /\ _ |- _ => destruct Hx
           end;
    try discriminate; try congruence; try lia;
    try (eexists; reflexivity).
Qed.

Lemma swapCallParameters_failure_reasons_witness :
  exists call,
    swapCallParameters Trades.source Trades.accept Trades.clock 1
                       Trades.tokens_for_tokens
                       (Trades.options_with (Ttl 1200) (Some true))
                       Trades.caller 0%nat
    = Returned call 40%nat.
Proof.
  apply (proj2 (proj2 (proj2 (swapCallParameters_failure_reasons
                  Trades.source Trades.accept Trades.clock 1
                  Trades.tokens_for_tokens
                  (Trades.options_with (Ttl 1200) (Some true))
                  Trades.caller 0%nat Fixtures.good_key 40%nat
                  caller_resolves))));
    first [reflexivity | discriminate].
Defined.

(* ===================================================================== *)
(** ** The encodings: printing and reading hexadecimal agree *)

Lemma digit_string_app ds1 ds2 :
  digit_string (ds1 ++ ds2) = digit_string ds1 ++ digit_string ds2.
Proof. induction ds1 as [| d ds1 IH]; simpl; [reflexivity | now rewrite IH]. Qed.

Lemma digit_string_length ds : String.length (digit_string ds) = List.length ds.
Proof. induction ds as [| d ds IH]; simpl; [reflexivity | now rewrite IH]. Qed.

Lemma digits_value_app acc ds1 ds2 :
  digits_value acc (ds1 ++ ds2) = digits_value (digits_value acc ds1) ds2.
Proof. unfold digits_value. apply fold_left_app. Qed.

Lemma append_assoc (s1 s2 s3 : string) : (s1 ++ s2) ++ s3 = s1 ++ (s2 ++ s3).
Proof. induction s1 as [| c s1 IH]; simpl; [reflexivity | now rewrite IH]. Qed.

(** [hex_digits] with enough fuel prints the digits of [n], the most
    significant one non-zero unless [n] is 0. *)
Lemma hex_digits_spec fuel :
  forall n acc,
    0 <= n < 16 ^ Z.of_nat (S fuel) ->
    exists ds,
      JS.hex_digits (S fuel) n acc = digit_string ds ++ acc /\
      Forall is_digit ds /\
      digits_value 0 ds = n /\
      (1 <= List.length ds)%nat /\
      (1 <= n -> 16 ^ (Z.of_nat (List.length ds) - 1) <= n).
Proof.
  induction fuel as [| f IH]; intros n acc Hn;
    cbn [JS.hex_digits]; destruct (Z.ltb_spec n 16) as [Small | Big].
  - exists [n]. rewrite Z.mod_small by lia.
    repeat split; simpl; try lia.
    constructor; [unfold is_digit; lia | constructor].
  - change (16 ^ Z.of_nat 1) with 16 in Hn. lia.
  - exists [n]. rewrite Z.mod_small by lia.
    repeat split; simpl; try lia.
    constructor; [unfold is_digit; lia | constructor].
  - rewrite Nat2Z.inj_succ, Z.pow_succ_r in Hn by lia.
    destruct (IH (n / 16) (String (JS.hex_char (n mod 16)) acc))
      as (ds & Eq & Dig & Val & Len & Low).
    { split; [apply Z.div_pos; lia |].
      apply Z.div_lt_upper_bound; lia. }
    exists (ds ++ [n mod 16])%list.
    assert (Hq : 1 <= n / 16) by (apply Z.div_le_lower_bound; lia).
    pose proof (Z.mod_pos_bound n 16 ltac:(lia)) as Hr.
    pose proof (Z.div_mod n 16 ltac:(lia)) as Hdm.
    repeat split.
    + cbn [JS.hex_digits] in Eq. rewrite Eq, digit_string_app, append_assoc.
      reflexivity.
    + apply Forall_app. split; [exact Dig |].
      constructor; [exact Hr | constructor].
    + rewrite digits_value_app, Val. unfold digits_value. cbn [fold_left]. lia.
    + rewrite length_app. simpl. lia.
    + intros _. rewrite length_app. simpl.
      replace (Z.of_nat (List.length ds + 1) - 1)
        with (Z.succ (Z.of_nat (List.length ds) - 1)) by lia.
      rewrite Z.pow_succ_r by lia.
      specialize (Low Hq). lia.
Qed.

Lemma toString16_fuel n :
  0 <= n -> n < 16 ^ Z.of_nat (S (Z.to_nat (Z.log2 n))).
Proof.
  intros Hn. rewrite Nat2Z.inj_succ, Z2Nat.id by apply Z.log2_nonneg.
  destruct (Z.eq_dec n 0) as [-> | Nz]; [reflexivity |].
  pose proof (Z.log2_spec n ltac:(lia)) as [_ Up].
  eapply Z.lt_le_trans; [exact Up |].
  change 16 with (2 ^ 4). rewrite <- Z.pow_mul_r by (pose proof (Z.log2_nonneg n); lia).
  apply Z.pow_le_mono_r; pose proof (Z.log2_nonneg n); lia.
Qed.

(** [n.toString(16)] of a non-negative integer: its digits, most
    significant first and minimal. *)
Lemma toString16_spec n :
  0 <= n ->
  exists ds,
    JS.toString16 n = digit_string ds /\
    Forall is_digit ds /\
    digits_value 0 ds = n /\
    (1 <= List.length ds)%nat /\
    (1 <= n -> 16 ^ (Z.of_nat (List.length ds) - 1) <= n).
Proof.
  intros Hn. unfold JS.toString16.
  destruct (Z.ltb_spec n 0); [lia |].
  destruct (hex_digits_spec _ n "" (conj Hn (toString16_fuel n Hn)))
    as (ds & Eq & Rest).
  exists ds. split; [| exact Rest].
  rewrite Eq. clear. induction (digit_string ds) as [| c s IH]; simpl;
    [reflexivity | now rewrite IH].
Qed.

Lemma read_digit_string ds :
  Forall is_digit ds ->
  forall acc,
    JS.read_digits JS.hex_val 16 acc (digit_string ds)
    = Some (digits_value acc ds).
Proof.
  induction 1 as [| d ds Hd _ IH]; intros acc; simpl.
  - reflexivity.
  - rewrite (hex_val_hex_char d Hd). apply IH.
Qed.

(** Reading back what [toHexString] printed gives the number. *)
Lemma BigNumber_from_toHexString v :
  0 <= v -> BigNumber.from (BigNumber.toHexString v) = Some v.
Proof.
  intros Hv. unfold BigNumber.toHexString, BigNumber.even_hex.
  destruct (Z.ltb_spec v 0); [lia |].
  destruct (toString16_spec v Hv) as (ds & -> & Dig & Val & Len & _).
  destruct ds as [| d ds]; [simpl in Len; lia |].
  assert (R : forall s, s = digit_string (d :: ds) \/
                        s = String "0" (digit_string (d :: ds)) ->
                        BigNumber.from ("0x" ++ s) = Some v).
  { intros s [-> | ->]; cbn [append BigNumber.from BigNumber.from_unsigned].
    - unfold JS.read_number. cbn [digit_string].
      change (String (JS.hex_char d) (digit_string ds))
        with (digit_string (d :: ds)).
      now rewrite (read_digit_string _ Dig), Val.
    - unfold JS.read_number. cbn [JS.read_digits].
      change (JS.hex_val "0") with (Some 0). cbn [Z.mul Z.add].
      now rewrite (read_digit_string _ Dig), Val. }
  destruct (Nat.even _); apply R; auto.
Qed.

(* ===================================================================== *)
(** ** The challenge test on keys whose first byte is not zero

    For such a key [toHexString] already prints 40 digits, [pad] has
    nothing to add, and the test of the code is the one of the
    specification. *)

Lemma from_hex_bytes s : Forall is_byte (Buffer.from_hex s).
Proof.
  assert (G : forall n s, (String.length s <= n)%nat ->
                          Forall is_byte (Buffer.from_hex s)).
  { clear s. induction n as [| n IH]; intros [| a [| b rest]] Hlen;
      cbn [Buffer.from_hex]; try constructor; simpl in Hlen; try lia.
    destruct (JS.hex_val a) as [hi |] eqn:Ha; [| constructor].
    destruct (JS.hex_val b) as [lo |] eqn:Hb; [| constructor].
    apply hex_val_range in Ha. apply hex_val_range in Hb.
    constructor; [unfold is_byte; lia |]. apply IH. lia. }
  apply (G (String.length s)). lia.
Qed.

Lemma from_hex_digit_string_length n :
  forall ds,
    List.length ds = (2 * n)%nat ->
    Forall is_digit ds ->
    List.length (Buffer.from_hex (digit_string ds)) = n.
Proof.
  induction n as [| n IH]; intros [| a [| b rest]] Hlen Dig;
    simpl in Hlen; try lia; [reflexivity |].
  inversion Dig as [| ? ? Da Dig']; subst.
  inversion Dig' as [| ? ? Db Dig'']; subst.
  cbn [digit_string Buffer.from_hex].
  rewrite (hex_val_hex_char a Da), (hex_val_hex_char b Db).
  cbn [List.length]. f_equal. apply IH; [lia | exact Dig''].
Qed.

Lemma lxor_byte a b : is_byte a -> is_byte b -> is_byte (Z.lxor a b).
Proof.
  unfold is_byte. intros Ha Hb.
  assert (Nonneg : 0 <= Z.lxor a b) by (apply Z.lxor_nonneg; lia).
  split; [exact Nonneg |].
  destruct (Z.eq_dec (Z.lxor a b) 0) as [-> | Nz]; [lia |].
  change 256 with (2 ^ 8) in *.
  apply Z.log2_lt_pow2; [lia |].
  eapply Z.le_lt_trans; [apply Z.log2_lxor; lia |].
  apply Z.max_lub_lt.
  - destruct (Z.eq_dec a 0) as [-> | ]; [reflexivity |].
    apply Z.log2_lt_pow2; lia.
  - destruct (Z.eq_dec b 0) as [-> | ]; [reflexivity |].
    apply Z.log2_lt_pow2; lia.
Qed.

Lemma xor_bytewise_bytes b1 :
  forall b2, Forall is_byte b1 -> Forall is_byte b2 ->
             Forall is_byte (xor_bytewise b1 b2).
Proof.
  induction b1 as [| x r1 IH]; intros [| y r2] H1 H2; simpl; try constructor.
  - apply lxor_byte; [now inversion H1 | now inversion H2].
  - apply IH; [now inversion H1 | now inversion H2].
Qed.

Lemma xor_bytewise_length b1 :
  forall b2, List.length b1 = List.length b2 ->
             List.length (xor_bytewise b1 b2) = List.length b1.
Proof.
  induction b1 as [| x r1 IH]; intros [| y r2] H; simpl in *; try lia.
  f_equal. apply IH. lia.
Qed.

(** On buffers of equal length the [map] of [xor] is the bytewise XOR. *)
Lemma mapi_xor_bytewise b1 :
  forall b2 seen,
    List.length b1 = List.length b2 ->
    Buffer.mapi_from
      (fun b i => Z.lxor b (Buffer.at_or_zero (seen ++ b2) i))
      (List.length seen) b1
    = xor_bytewise b1 b2.
Proof.
  induction b1 as [| x r1 IH]; intros [| y r2] seen H; simpl in H; try lia.
  - reflexivity.
  - cbn [Buffer.mapi_from xor_bytewise]. f_equal.
    + unfold Buffer.at_or_zero. now rewrite nth_middle.
    + specialize (IH r2 (seen ++ [y])%list ltac:(lia)).
      rewrite <- app_assoc, length_app in IH. cbn [List.length app] in IH.
      rewrite Nat.add_1_r in IH. exact IH.
Qed.

Lemma to_hex_app l1 l2 :
  Buffer.to_hex (l1 ++ l2) = Buffer.to_hex l1 ++ Buffer.to_hex l2.
Proof. induction l1 as [| b l1 IH]; simpl; [reflexivity | now rewrite IH]. Qed.

Lemma string_length_app (s1 s2 : string) :
  String.length (s1 ++ s2) = (String.length s1 + String.length s2)%nat.
Proof. induction s1 as [| c s1 IH]; simpl; [reflexivity | now rewrite IH]. Qed.

Lemma slice_from_app s1 s2 :
  JS.slice_from (String.length s1) (s1 ++ s2) = s2.
Proof. induction s1 as [| c s1 IH]; simpl; [now destruct s2 | exact IH]. Qed.

(** [getBEFB] reads the last byte of a printed buffer. *)
Lemma getBEFB_to_hex l b :
  is_byte b -> getBEFB (Buffer.to_hex (l ++ [b])) = Some b.
Proof.
  intros Hb. unfold getBEFB, pad, JS.slice_last.
  rewrite to_hex_app. set (zeros := JS.repeat "0" _).
  rewrite <- append_assoc.
  replace (String.length ((zeros ++ Buffer.to_hex l) ++ Buffer.to_hex [b]) - 2)%nat
    with (String.length (zeros ++ Buffer.to_hex l))
    by (rewrite (string_length_app (zeros ++ Buffer.to_hex l)); simpl; lia).
  rewrite slice_from_app. unfold is_byte in Hb.
  cbn [Buffer.to_hex]. unfold JS.parseInt16. cbn [JS.parseInt16_from].
  rewrite hex_val_hex_char
    by (split; [apply Z.div_pos; lia | apply Z.div_lt_upper_bound; lia]).
  rewrite hex_val_hex_char by (apply Z.mod_pos_bound; lia).
  f_equal. pose proof (Z.div_mod b 16 ltac:(lia)). lia.
Qed.

(** A key of 39 or 40 significant digits: [toHexString] prints 40 digits
    and a prefix, which is the zero-padded form without the prefix. *)
Lemma full_width_digits key :
  2 ^ 152 <= key < 2 ^ 160 ->
  exists ds,
    Forall is_digit ds /\
    List.length ds = 40%nat /\
    BigNumber.toHexString key = "0x" ++ digit_string ds /\
    key_hex40 key = digit_string ds.
Proof.
  intros [Lo Hi].
  assert (Hkey : 0 <= key) by lia.
  destruct (toString16_spec key Hkey) as (ds & Eq & Dig & Val & Len & Low).
  pose proof (digits_value_bounds ds Dig 0 ltac:(lia)) as [_ Up].
  unfold is_digit in *. rewrite Val in Up. specialize (Low ltac:(lia)).
  remember (List.length ds) as n eqn:Hn.
  assert (L38 : (38 < n)%nat).
  { destruct (Nat.lt_ge_cases 38 n) as [| Le]; [assumption | exfalso].
    assert (16 ^ Z.of_nat n <= 16 ^ 38) by (apply Z.pow_le_mono_r; lia).
    change (2 ^ 152) with (16 ^ 38) in Lo. lia. }
  assert (L40 : (n <= 40)%nat).
  { destruct (Nat.lt_ge_cases 40 n) as [Gt | ]; [exfalso | assumption].
    assert (16 ^ 40 <= 16 ^ (Z.of_nat n - 1)) by (apply Z.pow_le_mono_r; lia).
    change (2 ^ 160) with (16 ^ 40) in Hi. lia. }
  unfold BigNumber.toHexString, BigNumber.even_hex, key_hex40, pad.
  destruct (Z.ltb_spec key 0); [lia |].
  rewrite Eq, digit_string_length, <- Hn.
  assert (Cases : n = 39%nat \/ n = 40%nat) by lia.
  destruct Cases as [-> | ->].
  - exists (0 :: ds). repeat split; try reflexivity.
    + constructor; [lia | exact Dig].
    + simpl. lia.
  - exists ds. repeat split; try reflexivity; auto.
Qed.

(** On a well-formed address and a key whose first byte is not zero the
    test of the code is the property of the specification. *)
Lemma resolved_full_width signerAddress limits key :
  List.length (Buffer.from_hex (JS.slice_from 2 signerAddress)) = 20%nat ->
  2 ^ 152 <= key < 2 ^ 160 ->
  resolved signerAddress limits key
  = betweenLimits limits key
    && (spec_last_xor_byte signerAddress key =? GOAL).
Proof.
  intros Hsigner Hkey.
  destruct (full_width_digits key Hkey) as (ds & Dig & Len & Hex & Padded).
  unfold resolved, spec_last_xor_byte. rewrite Hex, Padded.
  destruct (betweenLimits limits key); [| reflexivity].
  cbn [negb andb].
  assert (Hpad : pad ("0x" ++ digit_string ds) 40 = "0x" ++ digit_string ds).
  { unfold pad. cbn [append String.length]. rewrite digit_string_length, Len.
    reflexivity. }
  rewrite Hpad. unfold xor.
  change (JS.slice_from 2 ("0x" ++ digit_string ds)) with (digit_string ds).
  set (buf1 := Buffer.from_hex (JS.slice_from 2 signerAddress)) in *.
  set (buf2 := Buffer.from_hex (digit_string ds)).
  assert (Len2 : List.length buf2 = 20%nat)
    by (apply from_hex_digit_string_length; [rewrite Len; reflexivity | exact Dig]).
  unfold Buffer.mapi.
  pose proof (mapi_xor_bytewise buf1 buf2 [] ltac:(lia)) as Map.
  cbn [app List.length] in Map. rewrite Map.
  pose proof (xor_bytewise_length buf1 buf2 ltac:(lia)) as LenX.
  pose proof (xor_bytewise_bytes buf1 buf2 (from_hex_bytes _) (from_hex_bytes _))
    as Bytes.
  destruct (exists_last (l := xor_bytewise buf1 buf2)) as (l & b & Split).
  { intros Nil. rewrite Nil in LenX. simpl in LenX. lia. }
  rewrite Split in *. apply Forall_app in Bytes as [_ Hb].
  rewrite (getBEFB_to_hex l b) by now inversion Hb.
  now rewrite last_last.
Qed.

(** The draw that resolves the zero address, by this characterisation. *)
Example good_key_by_specification :
  spec_last_xor_byte Fixtures.zero_address Fixtures.good_key = GOAL /\
  resolved Fixtures.zero_address (limits_of 0) Fixtures.good_key = true.
Proof.
  assert (S : spec_last_xor_byte Fixtures.zero_address Fixtures.good_key = GOAL)
    by (vm_compute; reflexivity).
  split; [exact S |].
  rewrite resolved_full_width.
  - rewrite S. vm_compute. reflexivity.
  - vm_compute. reflexivity.
  - unfold Fixtures.good_key. lia.
Qed.

(* ===================================================================== *)
(** ** The challenge test on keys whose first byte is zero

    Such a key prints fewer than 40 digits.  [pad] measures the string with
    its prefix, so what [xor] decodes after dropping two characters is at
    most 19 bytes long; the twentieth byte of the signer is XORed with
    [undefined], and the test looks at the signer's last byte alone. *)

Lemma from_hex_length_le s :
  (2 * List.length (Buffer.from_hex s) <= String.length s)%nat.
Proof.
  assert (G : forall n s, (String.length s <= n)%nat ->
                (2 * List.length (Buffer.from_hex s) <= String.length s)%nat).
  { clear s. induction n as [| n IH]; intros [| a [| b rest]] Hlen;
      cbn [Buffer.from_hex]; simpl in Hlen |- *; try lia.
    destruct (JS.hex_val a); [| simpl; lia].
    destruct (JS.hex_val b); [| simpl; lia].
    specialize (IH rest ltac:(lia)). simpl. lia. }
  apply (G (String.length s)). lia.
Qed.

Lemma slice_from_length n :
  forall s, String.length (JS.slice_from n s) = (String.length s - n)%nat.
Proof.
  induction n as [| n IH]; intros [| c s]; simpl; try lia. apply IH.
Qed.

Lemma repeat_length c n : String.length (JS.repeat c n) = n.
Proof. induction n as [| n IH]; simpl; [reflexivity | now rewrite IH]. Qed.

Lemma pad_length s count :
  String.length (pad s count) = Nat.max count (String.length s).
Proof. unfold pad. rewrite string_length_app, repeat_length. lia. Qed.

Lemma mapi_from_app f l1 :
  forall i l2,
    Buffer.mapi_from f i (l1 ++ l2)
    = (Buffer.mapi_from f i l1
       ++ Buffer.mapi_from f (i + List.length l1) l2)%list.
Proof.
  induction l1 as [| b l1 IH]; intros i l2; simpl.
  - now rewrite Nat.add_0_r.
  - rewrite IH. do 3 f_equal. lia.
Qed.

(** A key below 2^152 prints as at most 38 digits after the prefix. *)
Lemma short_key_hex_length key :
  0 <= key < 2 ^ 152 ->
  (String.length (BigNumber.toHexString key) <= 40)%nat.
Proof.
  intros [Lo Hi].
  destruct (toString16_spec key Lo) as (ds & Eq & Dig & Val & Len & Low).
  unfold BigNumber.toHexString, BigNumber.even_hex.
  destruct (Z.ltb_spec key 0); [lia |].
  rewrite Eq, digit_string_length.
  remember (List.length ds) as n eqn:Hn.
  assert (L38 : (n <= 38)%nat).
  { destruct (Z.eq_dec key 0) as [-> | Nz].
    - assert (E0 : JS.toString16 0 = "0") by reflexivity.
      rewrite E0 in Eq. apply (f_equal String.length) in Eq.
      rewrite digit_string_length in Eq. simpl in Eq. lia.
    - specialize (Low ltac:(lia)).
      destruct (Nat.lt_ge_cases 38 n) as [Gt | ]; [exfalso | assumption].
      assert (16 ^ 38 <= 16 ^ (Z.of_nat n - 1)) by (apply Z.pow_le_mono_r; lia).
      change (2 ^ 152) with (16 ^ 38) in Hi. lia. }
  assert (Parity : Nat.even n = true \/ (Nat.even n = false /\ (n <= 37)%nat)).
  { destruct (Nat.even n) eqn:E; [now left | right; split; [reflexivity |]].
    destruct (Nat.eq_dec n 38) as [-> |]; [discriminate E | lia]. }
  destruct Parity as [-> | [-> Odd]]; cbn [append String.length];
    rewrite digit_string_length, <- Hn; lia.
Qed.

(** On a key below 2^152 the test of the code does not read the key: it
    holds exactly when the key is in range and the signer's last byte is
    69. *)
Lemma resolved_short_key signerAddress limits key :
  List.length (Buffer.from_hex (JS.slice_from 2 signerAddress)) = 20%nat ->
  0 <= key < 2 ^ 152 ->
  resolved signerAddress limits key
  = betweenLimits limits key && (signer_last_byte signerAddress =? GOAL).
Proof.
  intros Hsigner Hkey. unfold resolved, signer_last_byte.
  destruct (betweenLimits limits key); [| reflexivity].
  cbn [negb andb]. unfold xor.
  set (buf1 := Buffer.from_hex (JS.slice_from 2 signerAddress)) in *.
  set (buf2 := Buffer.from_hex
                 (JS.slice_from 2 (pad (BigNumber.toHexString key) 40))).
  assert (Len2 : (List.length buf2 <= 19)%nat).
  { pose proof (from_hex_length_le
                  (JS.slice_from 2 (pad (BigNumber.toHexString key) 40))) as L.
    rewrite slice_from_length, pad_length in L.
    pose proof (short_key_hex_length key Hkey). fold buf2 in L. lia. }
  destruct (exists_last (l := buf1)) as (l & b & Split).
  { intros Nil. rewrite Nil in Hsigner. simpl in Hsigner. lia. }
  pose proof (from_hex_bytes (JS.slice_from 2 signerAddress)) as Bytes.
  fold buf1 in Bytes. rewrite Split in *.
  apply Forall_app in Bytes as [_ Hb]. inversion Hb as [| ? ? Byte _]; subst.
  rewrite length_app in Hsigner. simpl in Hsigner.
  unfold Buffer.mapi. rewrite mapi_from_app. cbn [Buffer.mapi_from].
  unfold Buffer.at_or_zero at 2. rewrite nth_overflow by lia.
  rewrite Z.lxor_0_r, (getBEFB_to_hex _ b Byte), last_last. reflexivity.
Qed.

(** The failing input above, by this characterisation: the key is accepted
    because the signer ends in 0x45, and the property of the specification
    fails on it. *)
Example short_key_by_characterisation :
  signer_last_byte Fixtures.address_45 = GOAL /\
  resolved Fixtures.address_45 (0, 2 ^ 160) Fixtures.short_key = true /\
  spec_last_xor_byte Fixtures.address_45 Fixtures.short_key <> GOAL.
Proof.
  assert (S : signer_last_byte Fixtures.address_45 = GOAL)
    by (vm_compute; reflexivity).
  split; [exact S |]. split.
  - rewrite resolved_short_key.
    + rewrite S. vm_compute. reflexivity.
    + vm_compute. reflexivity.
    + unfold Fixtures.short_key. lia.
  - vm_compute. discriminate.
Qed.

(* ===================================================================== *)
(** ** Further properties of the helpers of [resolveChallenge] and of
       [toHex] *)

(** X1. [toHex] of a non-negative amount reads back as that amount, and
    has exactly the digits the amount needs: no leading zero, a single 0
    for zero. *)
Theorem toHex_reads_back amount :
  0 <= raw amount ->
  BigNumber.from (toHex amount) = Some (raw amount) /\
  raw amount < 16 ^ (Z.of_nat (String.length (toHex amount)) - 2) /\
  (toHex amount = "0x0" \/
   16 ^ (Z.of_nat (String.length (toHex amount)) - 3) <= raw amount).
Proof.
  intros Hraw. unfold toHex.
  destruct (toString16_spec (raw amount) Hraw)
    as (ds & Eq & Dig & Val & Len & Low).
  pose proof (digits_value_bounds ds Dig 0 ltac:(lia)) as [_ Up].
  rewrite Val in Up. change (0 + 1) with 1 in Up. rewrite Z.mul_1_l in Up.
  assert (L : String.length ("0x" ++ JS.toString16 (raw amount))
              = (2 + List.length ds)%nat).
  { rewrite Eq. cbn [append String.length]. now rewrite digit_string_length. }
  rewrite L. split; [| split].
  - rewrite Eq. destruct ds as [| d ds]; [simpl in Len; lia |].
    cbn [append BigNumber.from BigNumber.from_unsigned digit_string].
    unfold JS.read_number.
    change (String (JS.hex_char d) (digit_string ds))
      with (digit_string (d :: ds)).
    now rewrite (read_digit_string _ Dig), Val.
  - replace (Z.of_nat (2 + List.length ds) - 2)
      with (Z.of_nat (List.length ds)) by lia.
    lia.
  - destruct (Z.eq_dec (raw amount) 0) as [E0 | Nz].
    + left. rewrite E0. reflexivity.
    + right.
      replace (Z.of_nat (2 + List.length ds) - 3)
        with (Z.of_nat (List.length ds) - 1) by lia.
      apply Low. lia.
Qed.

Lemma toHex_reads_back_witness :
  BigNumber.from "0x64" = Some 100 /\
  100 < 16 ^ (Z.of_nat 4 - 2) /\
  ("0x64" = "0x0" \/ 16 ^ (Z.of_nat 4 - 3) <= 100).
Proof.
  apply (toHex_reads_back (Trades.hundred ETHER)). simpl. lia.
Defined.

(** X2. [pad] only ever adds characters in front: the result is as long as
    the larger of the width and the input, it ends with the input, and an
    input already as long as the width comes back unchanged. *)
Theorem pad_never_truncates hex count :
  String.length (pad hex count) = Nat.max count (String.length hex) /\
  JS.slice_last (String.length hex) (pad hex count) = hex /\
  pad hex (Nat.min count (String.length hex)) = hex.
Proof.
  split; [apply pad_length | split].
  - unfold JS.slice_last. rewrite pad_length. unfold pad.
    set (zeros := JS.repeat "0" (count - String.length hex)).
    replace (Nat.max count (String.length hex) - String.length hex)%nat
      with (String.length zeros)
      by (unfold zeros; rewrite repeat_length; lia).
    apply slice_from_app.
  - unfold pad.
    replace (Nat.min count (String.length hex) - String.length hex)%nat
      with 0%nat by lia.
    reflexivity.
Qed.

(** Decoding what [toString('hex')] printed gives the bytes back. *)
Lemma from_hex_to_hex l :
  Forall is_byte l -> Buffer.from_hex (Buffer.to_hex l) = l.
Proof.
  induction 1 as [| b l Hb _ IH]; cbn [Buffer.to_hex Buffer.from_hex].
  - reflexivity.
  - unfold is_byte in Hb.
    rewrite hex_val_hex_char
      by (split; [apply Z.div_pos; lia | apply Z.div_lt_upper_bound; lia]).
    rewrite hex_val_hex_char by (apply Z.mod_pos_bound; lia).
    rewrite IH. f_equal. pose proof (Z.div_mod b 16 ltac:(lia)). lia.
Qed.

Lemma at_or_zero_byte buf i :
  Forall is_byte buf -> is_byte (Buffer.at_or_zero buf i).
Proof.
  intros H. unfold Buffer.at_or_zero.
  apply (nth_Forall is_byte); [exact H | unfold is_byte; lia].
Qed.

Lemma mapi_xor_bytes buf2 buf1 :
  Forall is_byte buf1 -> Forall is_byte buf2 ->
  forall i,
    Forall is_byte
      (Buffer.mapi_from (fun b j => Z.lxor b (Buffer.at_or_zero buf2 j)) i buf1).
Proof.
  intros H1 H2. induction H1 as [| b l Hb _ IH]; intros i;
    cbn [Buffer.mapi_from]; constructor.
  - apply lxor_byte; [exact Hb | now apply at_or_zero_byte].
  - apply IH.
Qed.

Lemma mapi_xor_twice buf2 buf1 :
  forall i,
    Buffer.mapi_from (fun b j => Z.lxor b (Buffer.at_or_zero buf2 j)) i
      (Buffer.mapi_from (fun b j => Z.lxor b (Buffer.at_or_zero buf2 j)) i buf1)
    = buf1.
Proof.
  induction buf1 as [| b l IH]; intros i; cbn [Buffer.mapi_from].
  - reflexivity.
  - rewrite IH. f_equal.
    now rewrite Z.lxor_assoc, Z.lxor_nilpotent, Z.lxor_0_r.
Qed.

(** X3. [xor] undoes itself: XORing its result, given the prefix [xor]
    expects, with the same second argument prints the bytes of the first
    argument again, whatever the lengths of the two. *)
Theorem xor_twice hex1 hex2 :
  xor ("0x" ++ xor hex1 hex2) hex2
  = Buffer.to_hex (Buffer.from_hex (JS.slice_from 2 hex1)).
Proof.
  unfold xor at 1.
  change (JS.slice_from 2 ("0x" ++ xor hex1 hex2)) with (xor hex1 hex2).
  unfold xor, Buffer.mapi.
  rewrite from_hex_to_hex
    by (apply mapi_xor_bytes; apply from_hex_bytes).
  now rewrite mapi_xor_twice.
Qed.

(** X4. The byte compared with [GOAL] is always a number: on a result of
    [xor], [getBEFB] never gives [NaN]; it gives a byte, the last byte of
    the first buffer XORed with the second buffer's byte at that index (0
    past its end), and 0 when the first argument decodes to no byte. *)
Theorem getBEFB_of_xor hex1 hex2 :
  getBEFB (xor hex1 hex2) = Some (xor_last_byte hex1 hex2) /\
  0 <= xor_last_byte hex1 hex2 < 256.
Proof.
  unfold xor, xor_last_byte, Buffer.mapi.
  pose proof (from_hex_bytes (JS.slice_from 2 hex1)) as Bytes1.
  pose proof (from_hex_bytes (JS.slice_from 2 hex2)) as Bytes2.
  set (buf1 := Buffer.from_hex (JS.slice_from 2 hex1)) in *.
  set (buf2 := Buffer.from_hex (JS.slice_from 2 hex2)) in *.
  clearbody buf1 buf2.
  induction buf1 as [| b l _] using rev_ind.
  - split; [reflexivity | lia].
  - apply Forall_app in Bytes1 as [_ Hb]. inversion Hb as [| ? ? Byte _]; subst.
    assert (Last : is_byte (Z.lxor b (Buffer.at_or_zero buf2 (List.length l))))
      by (apply lxor_byte; [exact Byte | now apply at_or_zero_byte]).
    rewrite mapi_from_app. cbn [Buffer.mapi_from Nat.add].
    rewrite (getBEFB_to_hex _ _ Last).
    destruct (l ++ [b])%list as [| x r] eqn:E; [destruct l; discriminate |].
    rewrite <- E, last_last, length_app. cbn [List.length].
    replace (List.length l + 1 - 1)%nat with (List.length l) by lia.
    split; [reflexivity | exact Last].
Qed.

(* ===================================================================== *)
(** ** Further properties of the search *)

Lemma join_digits ds :
  Forall is_digit ds -> JS.join (map JS.toString16 ds) = digit_string ds.
Proof.
  induction 1 as [| d ds Hd _ IH]; simpl; [reflexivity |].
  now rewrite (toString16_digit d Hd), IH.
Qed.

(** X5. With a random source of hexadecimal digits, [genRanHex(size)]
    makes exactly [size] calls of the source and returns exactly [size]
    characters, the digits drawn, in the order drawn. *)
Theorem genRanHex_digits rnd size calls :
  (forall i, 0 <= rnd i < 16) ->
  genRanHex rnd size calls
  = Returned (digit_string (window rnd calls size)) (calls + size)%nat /\
  String.length (digit_string (window rnd calls size)) = size.
Proof.
  intros Hrnd. split.
  - rewrite genRanHex_window.
    now rewrite (join_digits _ (window_digits rnd calls size Hrnd)).
  - rewrite digit_string_length. unfold window.
    now rewrite length_map, length_seq.
Qed.

Lemma genRanHex_digits_witness :
  genRanHex (Fixtures.stream "c0ffee") 6 0%nat
  = Returned (digit_string (window (Fixtures.stream "c0ffee") 0 6)) (0 + 6)%nat /\
  String.length (digit_string (window (Fixtures.stream "c0ffee") 0 6)) = 6%nat.
Proof.
  apply (genRanHex_digits (Fixtures.stream "c0ffee") 6 0%nat).
  apply stream_digit.
Defined.

(** X6. With a random source of hexadecimal digits, drawing a candidate
    never throws, makes 40 calls of the source, and gives the number whose
    base-16 digits are the 40 drawn, a value of [0, 2^160 - 1]. *)
Theorem draw_candidate_160_bit rnd calls :
  (forall i, 0 <= rnd i < 16) ->
  draw_candidate rnd calls
  = Returned (digits_value 0 (window rnd calls 40)) (calls + 40)%nat /\
  0 <= digits_value 0 (window rnd calls 40) <= 2 ^ 160 - 1.
Proof.
  intros Hrnd. split; [apply draw_candidate_returns; exact Hrnd |].
  pose proof (drawn_160_bit rnd calls Hrnd) as B.
  unfold drawn in B. rewrite (draw_candidate_returns rnd calls Hrnd) in B.
  lia.
Qed.

Lemma draw_candidate_160_bit_witness :
  draw_candidate Trades.source 0%nat
  = Returned (digits_value 0 (window Trades.source 0 40)) (0 + 40)%nat /\
  0 <= digits_value 0 (window Trades.source 0 40) <= 2 ^ 160 - 1.
Proof.
  apply (draw_candidate_160_bit Trades.source 0%nat). apply stream_digit.
Defined.

(** A draw that returns made 40 calls and returned [drawn]. *)
Lemma draw_candidate_inv rnd calls key calls' :
  draw_candidate rnd calls = Returned key calls' ->
  key = drawn rnd calls /\ calls' = (calls + 40)%nat.
Proof.
  intros H. unfold drawn. rewrite H. split; [reflexivity |].
  unfold draw_candidate, bind in H. rewrite genRanHex_window in H.
  unfold BigNumber_from, or_throw in H.
  destruct (BigNumber.from _); [| discriminate].
  unfold ret in H. now injection H as _ <-.
Qed.

Lemma search_returns_first_hit rnd signerAddress limits calls fuel :
  forall j key calls',
    search rnd fuel signerAddress limits (candidate rnd calls j)
           (calls + 40 * (j + 1))%nat
    = Returned key calls' ->
    exists d,
      (d < fuel)%nat /\
      key = candidate rnd calls (j + d) /\
      calls' = (calls + 40 * (j + d + 1))%nat /\
      hit rnd signerAddress limits calls (j + d) = true /\
      forall k, (j <= k < j + d)%nat ->
                hit rnd signerAddress limits calls k = false.
Proof.
  induction fuel as [| f IH]; intros j key calls' H; cbn [search] in H.
  - discriminate.
  - destruct (resolved signerAddress limits (candidate rnd calls j)) eqn:R.
    + unfold ret in H. injection H as <- <-. exists 0%nat.
      rewrite !Nat.add_0_r. repeat split; try lia. exact R.
    + apply bind_inv_returned in H as (next & c & D & H).
      apply draw_candidate_inv in D as [-> ->].
      replace (calls + 40 * (j + 1) + 40)%nat
        with (calls + 40 * (j + 1 + 1))%nat in H by lia.
      change (drawn rnd (calls + 40 * (j + 1)))
        with (candidate rnd calls (j + 1)) in H.
      apply IH in H as (d & Hd & -> & -> & Hit & Miss).
      exists (S d).
      replace (j + S d)%nat with (j + 1 + d)%nat by lia.
      repeat split; try lia; try exact Hit.
      intros k Hk. destruct (Nat.eq_dec k j) as [-> | Ne].
      * exact R.
      * apply Miss. lia.
Qed.

(** X7. Whatever the random source, a key returned by [resolveChallenge]
    is the first candidate that passes the test of the loop: with [n]
    candidates rejected before it, the call has made exactly 40 * (n + 1)
    calls of the source. *)
Theorem resolveChallenge_returns_first_hit
        rnd fuel signerAddress calls key calls' :
  resolveChallenge rnd fuel signerAddress calls = Returned key calls' ->
  exists signer n,
    BigNumber.from signerAddress = Some signer /\
    (n < fuel)%nat /\
    key = candidate rnd calls n /\
    calls' = (calls + 40 * (n + 1))%nat /\
    hit rnd signerAddress (limits_of signer) calls n = true /\
    forall k, (k < n)%nat ->
              hit rnd signerAddress (limits_of signer) calls k = false.
Proof.
  intros H. unfold resolveChallenge in H.
  apply bind_inv_returned in H as (signer & c & Hs & H).
  unfold BigNumber_from, or_throw in Hs.
  destruct (BigNumber.from signerAddress) as [s |] eqn:Es; [| discriminate].
  unfold ret in Hs. injection Hs as -> <-.
  apply bind_inv_returned in H as (first & c & D & H).
  apply draw_candidate_inv in D as [-> ->].
  replace (calls + 40)%nat with (calls + 40 * (0 + 1))%nat in H by lia.
  replace (drawn rnd calls) with (candidate rnd calls 0) in H
    by (unfold candidate; f_equal; lia).
  apply search_returns_first_hit in H as (d & Hd & -> & -> & Hit & Miss).
  exists signer, d. cbn [Nat.add] in *.
  repeat split; try assumption; try reflexivity.
  intros k Hk. apply Miss. lia.
Qed.

Lemma resolveChallenge_returns_first_hit_witness :
  exists signer n,
    BigNumber.from Fixtures.zero_address = Some signer /\
    (n < 3)%nat /\
    Fixtures.good_key = candidate (late_source 2) 0 n /\
    120%nat = (0 + 40 * (n + 1))%nat /\
    hit (late_source 2) Fixtures.zero_address (limits_of signer) 0 n = true /\
    forall k, (k < n)%nat ->
              hit (late_source 2) Fixtures.zero_address (limits_of signer) 0 k
              = false.
Proof.
  apply (resolveChallenge_returns_first_hit
           (late_source 2) 3 Fixtures.zero_address 0%nat Fixtures.good_key
           120%nat).
  vm_compute. reflexivity.
Defined.

(** X8. On a 20-byte signer address and a 160-bit key, the test of the
    loop is: the key is within the limits, and
    - for a key below 2^152 (first byte zero), the signer's own last byte
      is 69, whatever the key;
    - for a key from 2^152 up, the last byte of signer XOR key is 69. *)
Theorem resolved_by_key_width signerAddress limits key :
  List.length (Buffer.from_hex (JS.slice_from 2 signerAddress)) = 20%nat ->
  0 <= key < 2 ^ 160 ->
  resolved signerAddress limits key
  = betweenLimits limits key
    && ((if key <? 2 ^ 152
         then signer_last_byte signerAddress
         else spec_last_xor_byte signerAddress key) =? GOAL).
Proof.
  intros Hsigner Hkey. destruct (Z.ltb_spec key (2 ^ 152)).
  - apply resolved_short_key; [exact Hsigner | lia].
  - apply resolved_full_width; [exact Hsigner | lia].
Qed.

Lemma resolved_by_key_width_witness :
  resolved Fixtures.address_45 (0, 2 ^ 160) Fixtures.short_key
  = betweenLimits (0, 2 ^ 160) Fixtures.short_key
    && ((if Fixtures.short_key <? 2 ^ 152
         then signer_last_byte Fixtures.address_45
         else spec_last_xor_byte Fixtures.address_45 Fixtures.short_key)
        =? GOAL).
Proof.
  apply (resolved_by_key_width Fixtures.address_45 (0, 2 ^ 160)
           Fixtures.short_key).
  - vm_compute. reflexivity.
  - unfold Fixtures.short_key. lia.
Defined.

(** No key passes for an odd signer of at most 2^152 whose last byte is
    not 69: every admissible key is below 2^152. *)
Lemma small_odd_signer_has_no_key signerAddress signer :
  List.length (Buffer.from_hex (JS.slice_from 2 signerAddress)) = 20%nat ->
  Z.odd signer = true ->
  signer <= 2 ^ 152 ->
  signer_last_byte signerAddress <> GOAL ->
  forall key, resolved signerAddress (limits_of signer) key = false.
Proof.
  intros Hlen Hodd Hsmall Hlast key.
  destruct (resolved signerAddress (limits_of signer) key) eqn:R; [| reflexivity].
  pose proof (resolved_betweenLimits _ _ _ R) as B.
  rewrite (limits_of_odd _ Hodd) in B, R. unfold betweenLimits in B.
  cbn [fst snd] in B. apply andb_true_iff in B as [Lo Hi].
  apply Z.leb_le in Lo. apply Z.leb_le in Hi.
  rewrite (resolved_short_key _ _ _ Hlen) in R by lia.
  apply andb_true_iff in R as [_ R]. apply Z.eqb_eq in R. contradiction.
Qed.

(** X9. For a 20-byte signer address whose value is odd and at most 2^152
    and whose last byte is not 69, [resolveChallenge] never returns a key,
    whatever the random source; with a source of hexadecimal digits the
    call is still running at every budget of the loop. *)
Theorem resolveChallenge_never_returns
        rnd fuel signerAddress signer calls :
  BigNumber.from signerAddress = Some signer ->
  List.length (Buffer.from_hex (JS.slice_from 2 signerAddress)) = 20%nat ->
  Z.odd signer = true ->
  signer <= 2 ^ 152 ->
  signer_last_byte signerAddress <> GOAL ->
  (forall key calls',
     resolveChallenge rnd fuel signerAddress calls <> Returned key calls') /\
  ((forall i, 0 <= rnd i < 16) ->
   resolveChallenge rnd fuel signerAddress calls = Running).
Proof.
  intros Hs Hlen Hodd Hsmall Hlast.
  pose proof (small_odd_signer_has_no_key _ _ Hlen Hodd Hsmall Hlast) as None.
  split.
  - intros key calls' H.
    apply resolveChallenge_returns_resolved in H as (s & Hs' & R).
    rewrite Hs in Hs'. injection Hs' as <-. rewrite None in R. discriminate.
  - intros Hrnd. rewrite (resolveChallenge_unfold _ _ _ _ _ Hrnd Hs).
    apply (search_miss rnd Hrnd). intros k _. apply None.
Qed.

Lemma resolveChallenge_never_returns_witness :
  (forall key calls',
     resolveChallenge Trades.source 7
                      "0x00000000000000000000000000000000000000a1" 0%nat
     <> Returned key calls') /\
  ((forall i, 0 <= Trades.source i < 16) ->
   resolveChallenge Trades.source 7
                    "0x00000000000000000000000000000000000000a1" 0%nat
   = Running).
Proof.
  apply (resolveChallenge_never_returns Trades.source 7
           "0x00000000000000000000000000000000000000a1" 161 0%nat).
  - reflexivity.
  - vm_compute. reflexivity.
  - reflexivity.
  - lia.
  - vm_compute. discriminate.
Defined.

Lemma digits_value_leading_zeros n ds :
  digits_value 0 (List.repeat 0 n ++ ds) = digits_value 0 ds.
Proof.
  induction n as [| n IH]; [reflexivity |].
  cbn [List.repeat app]. unfold digits_value in *. cbn [fold_left].
  exact IH.
Qed.

Lemma map_nth_seq (l : list Z) :
  map (fun i => nth i l 0) (seq 0 (List.length l)) = l.
Proof.
  induction l as [| a l IH]; [reflexivity |].
  cbn [List.length seq map nth]. f_equal.
  rewrite <- seq_shift, map_map. exact IH.
Qed.

(** The digits of a 160-bit value, padded with zeros to 40. *)
Lemma forty_digits v :
  0 <= v < 2 ^ 160 ->
  exists ds,
    Forall is_digit ds /\ List.length ds = 40%nat /\ digits_value 0 ds = v.
Proof.
  intros [Lo Hi].
  destruct (toString16_spec v Lo) as (ds & Eq & Dig & Val & Len & Low).
  assert (L40 : (List.length ds <= 40)%nat).
  { destruct (Z.eq_dec v 0) as [-> | Nz].
    - assert (E0 : JS.toString16 0 = "0") by reflexivity.
      rewrite E0 in Eq. apply (f_equal String.length) in Eq.
      rewrite digit_string_length in Eq. simpl in Eq. lia.
    - specialize (Low ltac:(lia)).
      destruct (Nat.lt_ge_cases 40 (List.length ds)) as [Gt | ];
        [exfalso | assumption].
      assert (16 ^ 40 <= 16 ^ (Z.of_nat (List.length ds) - 1))
        by (apply Z.pow_le_mono_r; lia).
      change (2 ^ 160) with (16 ^ 40) in Hi. lia. }
  exists (List.repeat 0 (40 - List.length ds) ++ ds)%list.
  split; [| split].
  - apply Forall_app. split; [| exact Dig].
    apply Forall_forall. intros d Hin. apply repeat_spec in Hin. subst.
    unfold is_digit. lia.
  - rewrite length_app, List.repeat_length. lia.
  - now rewrite digits_value_leading_zeros.
Qed.

(** X10. Every value of [0, 2^160 - 1] is the candidate of some run of
    the random source: the draw can produce any 160-bit key, those below
    2^152 included. *)
Theorem every_key_can_be_drawn v :
  0 <= v < 2 ^ 160 ->
  exists rnd,
    (forall i, 0 <= rnd i < 16) /\
    draw_candidate rnd 0%nat = Returned v 40%nat.
Proof.
  intros Hv. destruct (forty_digits v Hv) as (ds & Dig & Len & Val).
  exists (fun i => nth i ds 0).
  assert (Hrnd : forall i : nat, 0 <= nth i ds 0 < 16).
  { intros i. apply (nth_Forall is_digit); [exact Dig | unfold is_digit; lia]. }
  split; [exact Hrnd |].
  rewrite (draw_candidate_returns _ _ Hrnd). unfold window.
  rewrite <- Len at 1. rewrite map_nth_seq, Val. reflexivity.
Qed.

Lemma every_key_can_be_drawn_witness :
  exists rnd,
    (forall i, 0 <= rnd i < 16) /\
    draw_candidate rnd 0%nat = Returned Fixtures.short_key 40%nat.
Proof.
  apply (every_key_can_be_drawn Fixtures.short_key).
  unfold Fixtures.short_key. lia.
Defined.

(* ===================================================================== *)
(** ** Further properties of [swapCallParameters] *)

Lemma read_digits_nonneg s :
  forall acc v,
    0 <= acc ->
    JS.read_digits JS.hex_val 16 acc s = Some v -> 0 <= v.
Proof.
  induction s as [| c s IH]; intros acc v Hacc H; cbn [JS.read_digits] in H.
  - injection H as <-. exact Hacc.
  - destruct (JS.hex_val c) as [d |] eqn:Hd; [| discriminate].
    apply hex_val_range in Hd. eapply IH; [| exact H]. lia.
Qed.

(** A candidate is never negative, whatever the random source. *)
Lemma drawn_nonneg rnd calls : 0 <= drawn rnd calls.
Proof.
  unfold drawn.
  destruct (draw_candidate rnd calls) as [key c | e c |] eqn:D; try lia.
  unfold draw_candidate, bind in D. rewrite genRanHex_window in D.
  unfold BigNumber_from, or_throw in D.
  destruct (BigNumber.from _) as [v |] eqn:F; [| discriminate].
  unfold ret in D. injection D as <- _.
  cbn [append BigNumber.from BigNumber.from_unsigned] in F.
  unfold JS.read_number in F.
  destruct (JS.join _); [discriminate |].
  eapply read_digits_nonneg; [| exact F]. lia.
Qed.

Lemma search_returns_nonneg rnd fuel signerAddress limits :
  forall challengeKey calls key calls',
    0 <= challengeKey ->
    search rnd fuel signerAddress limits challengeKey calls = Returned key calls' ->
    0 <= key.
Proof.
  induction fuel as [| f IH]; intros ck calls key calls' Hck H;
    cbn [search] in H; [discriminate |].
  destruct (resolved signerAddress limits ck).
  - unfold ret in H. now injection H as <- _.
  - apply bind_inv_returned in H as (next & c & D & H).
    apply draw_candidate_inv in D as [-> _].
    apply (IH _ _ _ _ (drawn_nonneg rnd calls) H).
Qed.

(** The key [resolveChallenge] returns is never negative. *)
Lemma resolveChallenge_returns_nonneg rnd fuel signerAddress calls key calls' :
  resolveChallenge rnd fuel signerAddress calls = Returned key calls' ->
  0 <= key.
Proof.
  unfold resolveChallenge. intros H.
  apply bind_inv_returned in H as (signer & c & _ & H).
  apply bind_inv_returned in H as (first & c' & D & H).
  apply draw_candidate_inv in D as [-> _].
  apply (search_returns_nonneg _ _ _ _ _ _ _ _ (drawn_nonneg rnd c) H).
Qed.

(** X11. A call that returns has consumed exactly the randomness of the
    resolver, its last argument is the hexadecimal of the key the resolver
    returned for the caller, and that argument reads back as the key. *)
Theorem swapCallParameters_trailing_key
        rnd validateAndParseAddress now fuel trade options caller
        calls call calls' :
  swapCallParameters rnd validateAndParseAddress now fuel trade options
                     caller calls
  = Returned call calls' ->
  exists key,
    resolveChallenge rnd fuel caller calls = Returned key calls' /\
    last (args call) (Str "") = Str (BigNumber.toHexString key) /\
    BigNumber.from (BigNumber.toHexString key) = Some key.
Proof.
  intros H. unfold swapCallParameters in H.
  apply bind_inv_returned in H as (key & c1 & R & H). cbv beta in H.
  exists key.
  assert (Hkey : 0 <= key).
  { apply (resolveChallenge_returns_nonneg _ _ _ _ _ _ R). }
  assert (Tail : calls' = c1 /\
                 last (args call) (Str "") = Str (BigNumber.toHexString key)).
  { clear R Hkey.
    destruct (validateAndParseAddress (recipient options));
      destruct (maximumAmountIn trade (allowedSlippage options));
      split_tests; injection H as <- <-; split; reflexivity. }
  destruct Tail as [-> Last].
  split; [exact R | split; [exact Last |]].
  apply BigNumber_from_toHexString. exact Hkey.
Qed.

Lemma swapCallParameters_trailing_key_witness :
  exists key,
    resolveChallenge Trades.source 1 Trades.caller 0%nat
    = Returned key 40%nat /\
    last [Str "0x64"; Str "0x0";
          Strs [address Trades.tokenA; address Trades.tokenB];
          Str "0x2222222222222222222222222222222222222222";
          Str "0x6553f5b0"; Str "0x1000000000000000000000000000000000000045"]
         (Str "")
    = Str (BigNumber.toHexString key) /\
    BigNumber.from (BigNumber.toHexString key) = Some key.
Proof.
  apply (swapCallParameters_trailing_key
           Trades.source Trades.accept Trades.clock 1
           Trades.tokens_for_tokens (Trades.options_with (Ttl 1200) None)
           Trades.caller 0%nat
           {| methodName := "swapExactTokensForTokens";
              args := [Str "0x64"; Str "0x0";
                       Strs [address Trades.tokenA; address Trades.tokenB];
                       Str "0x2222222222222222222222222222222222222222";
                       Str "0x6553f5b0";
                       Str "0x1000000000000000000000000000000000000045"];
              value := "0x0" |}
           40%nat).
  vm_compute. reflexivity.
Defined.

(** X12. A caller that is no usable number makes the call throw at once:
    no random draw is made and neither the trade nor the options are looked
    at.  For a string that is neither [0x] and hexadecimal digits nor
    decimal digits the error is the one of [BigNumber.from]; for a string
    with the upper-case prefix [0X] it is the one of the first arithmetic
    on the BigNumber. *)
Theorem swapCallParameters_invalid_caller
        rnd validateAndParseAddress now fuel trade options caller calls :
  BigNumber.from caller = None ->
  swapCallParameters rnd validateAndParseAddress now fuel trade options
                     caller calls
  = Threw (BigNumber_error caller) calls /\
  (BigNumber.upper_prefix caller = false ->
   swapCallParameters rnd validateAndParseAddress now fuel trade options
                      caller calls
   = Threw (InvalidBigNumber caller) calls).
Proof.
  intros H.
  assert (T : swapCallParameters rnd validateAndParseAddress now fuel trade
                options caller calls
              = Threw (BigNumber_error caller) calls).
  { unfold swapCallParameters. apply bind_threw.
    unfold resolveChallenge. apply bind_threw.
    unfold BigNumber_from. rewrite H. reflexivity. }
  split; [exact T |].
  intros Lower. rewrite T. unfold BigNumber_error. now rewrite Lower.
Qed.

(** A caller with the upper-case prefix: [BigNumber.from] takes it, the
    parity test on line 94 throws, and no draw has been made. *)
Example upper_prefix_caller_throws :
  swapCallParameters Trades.source Trades.accept Trades.clock 1
                     Trades.tokens_for_tokens
                     (Trades.options_with (Ttl 1200) None)
                     "0X0000000000000000000000000000000000000000" 0%nat
  = Threw (InvalidCharacter "0X0000000000000000000000000000000000000000")
          0%nat.
Proof. vm_compute. reflexivity. Qed.

Lemma swapCallParameters_invalid_caller_witness :
  swapCallParameters Trades.source Trades.accept Trades.clock 1
                     Trades.native_for_native
                     (Trades.options_with (Ttl 0) None) "" 0%nat
  = Threw (InvalidBigNumber "") 0%nat.
Proof.
  apply (proj2 (swapCallParameters_invalid_caller
                  Trades.source Trades.accept Trades.clock 1
                  Trades.native_for_native (Trades.options_with (Ttl 0) None)
                  "" 0%nat eq_refl)).
  reflexivity.
Defined.

(** X13. A positive time-to-live is the deadline it stands for: the call
    with [ttl] runs exactly as the call with the absolute deadline
    floor(now / 1000) + ttl, the sum being the one of JavaScript numbers
    (the sum of the integers when that is at most 2^53 in magnitude). *)
Theorem swapCallParameters_ttl_as_deadline
        rnd validateAndParseAddress now fuel trade options caller calls ttl
        deadline :
  0 < ttl ->
  JS.add (now / 1000) ttl = JS.Finite deadline ->
  swapCallParameters rnd validateAndParseAddress now fuel trade
                     (with_expiry options (Ttl ttl)) caller calls
  = swapCallParameters rnd validateAndParseAddress now fuel trade
                       (with_expiry options (Deadline deadline))
                       caller calls.
Proof.
  intros Httl Sum. unfold swapCallParameters, has_ttl.
  cbn [with_expiry expiry recipient allowedSlippage feeOnTransfer].
  rewrite Sum. cbn [JS.number_toString16].
  destruct (Z.ltb_spec 0 ttl); [| lia].
  reflexivity.
Qed.

Lemma swapCallParameters_ttl_as_deadline_witness :
  swapCallParameters Trades.source Trades.accept Trades.clock 1
                     Trades.tokens_for_tokens
                     (with_expiry (Trades.options_with (Deadline 0) None)
                                  (Ttl 1200))
                     Trades.caller 0%nat
  = swapCallParameters Trades.source Trades.accept Trades.clock 1
                       Trades.tokens_for_tokens
                       (with_expiry (Trades.options_with (Deadline 0) None)
                                    (Deadline (Trades.clock / 1000 + 1200)))
                       Trades.caller 0%nat.
Proof.
  apply (swapCallParameters_ttl_as_deadline
           Trades.source Trades.accept Trades.clock 1
           Trades.tokens_for_tokens (Trades.options_with (Deadline 0) None)
           Trades.caller 0%nat 1200 (Trades.clock / 1000 + 1200)).
  - lia.
  - apply add_exact. vm_compute. discriminate.
Defined.

(** X14. With an absolute deadline the clock is not read: the call runs
    the same at any two times. *)
Theorem swapCallParameters_deadline_ignores_clock
        rnd validateAndParseAddress now now' fuel trade options caller calls
        deadline :
  expiry options = Deadline deadline ->
  swapCallParameters rnd validateAndParseAddress now fuel trade options
                     caller calls
  = swapCallParameters rnd validateAndParseAddress now' fuel trade options
                       caller calls.
Proof.
  intros E. unfold swapCallParameters, has_ttl. rewrite E. reflexivity.
Qed.

Lemma swapCallParameters_deadline_ignores_clock_witness :
  swapCallParameters Trades.source Trades.accept 0 1
                     Trades.tokens_for_tokens
                     (Trades.options_with (Deadline 1700001200) None)
                     Trades.caller 0%nat
  = swapCallParameters Trades.source Trades.accept Trades.clock 1
                       Trades.tokens_for_tokens
                       (Trades.options_with (Deadline 1700001200) None)
                       Trades.caller 0%nat.
Proof.
  apply (swapCallParameters_deadline_ignores_clock
           Trades.source Trades.accept 0 Trades.clock 1
           Trades.tokens_for_tokens
           (Trades.options_with (Deadline 1700001200) None)
           Trades.caller 0%nat 1700001200).
  reflexivity.
Defined.

(** X15. Once the resolver has returned, the failures of the two
    collaborators come after the first two invariants and in order: the
    call throws the recipient's validation error exactly when the legs are
    not both native, no time-to-live is violated, and the recipient does
    not validate; it throws the error of [maximumAmountIn] exactly when,
    besides, the recipient validates and [maximumAmountIn] throws.  Both
    precede the test of exact output with fee-on-transfer. *)
Theorem swapCallParameters_collaborator_failures
        rnd validateAndParseAddress now fuel trade options caller
        calls key calls' :
  resolveChallenge rnd fuel caller calls = Returned key calls' ->
  (swapCallParameters rnd validateAndParseAddress now fuel trade options
                      caller calls
   = Threw (InvalidAddress (recipient options)) calls'
   <-> both_native trade = false /\
       ttl_violation options = false /\
       validateAndParseAddress (recipient options) = None) /\
  (swapCallParameters rnd validateAndParseAddress now fuel trade options
                      caller calls
   = Threw TradeError calls'
   <-> both_native trade = false /\
       ttl_violation options = false /\
       validateAndParseAddress (recipient options) <> None /\
       maximumAmountIn trade (allowedSlippage options) = None).
Proof.
  intros H. after_resolution H.
  destruct (validateAndParseAddress (recipient options));
    destruct (maximumAmountIn trade (allowedSlippage options));
    split_tests;
    repeat match goal with
           | |- _ /\ _ => split
           | |- _ <-> _ => split
           | |- _ -> _ => intro
           | Hx : _ /\ _ |- _ => destruct Hx
           end;
    try discriminate; try congruence; try lia; try reflexivity.
Qed.

Lemma swapCallParameters_collaborator_failures_witness :
  swapCallParameters Trades.source Trades.reject Trades.clock 1
                     Trades.tokens_for_exact_tokens
                     (Trades.options_with (Ttl 1200) (Some true))
                     Trades.caller 0%nat
  = Threw (InvalidAddress "0x2222222222222222222222222222222222222222")
          40%nat.
Proof.
  apply (proj1 (swapCallParameters_collaborator_failures
                  Trades.source Trades.reject Trades.clock 1
                  Trades.tokens_for_exact_tokens
                  (Trades.options_with (Ttl 1200) (Some true))
                  Trades.caller 0%nat Fixtures.good_key 40%nat
                  caller_resolves)).
  repeat split.
Defined.

(* ===================================================================== *)
(** ** A candidate the specification accepts and the loop rejects *)

Lemma cycle_digit s i : 0 <= Fixtures.cycle s i < 16.
Proof.
  unfold Fixtures.cycle, Fixtures.digits_of.
  apply (nth_Forall (fun d => 0 <= d < 16)); [| lia].
  apply Forall_forall. intros d Hin.
  apply in_map_iff in Hin as (c & <- & _).
  destruct (JS.hex_val c) eqn:E; [eapply hex_val_range; eassumption | lia].
Qed.

(** Every candidate of the repeating source is the key 228. *)
Lemma cycle_candidate k :
  candidate (Fixtures.cycle Fixtures.e4_digits) 0 k = 228.
Proof.
  unfold candidate, drawn.
  rewrite (draw_candidate_returns _ _ (cycle_digit Fixtures.e4_digits)).
  rewrite (window_shift _ (Fixtures.stream Fixtures.e4_digits) 40 _ 0%nat).
  - vm_compute. reflexivity.
  - intros i Hi. unfold Fixtures.cycle, Fixtures.stream.
    replace (0 + 40 * k + i)%nat with (i + k * 40)%nat by lia.
    rewrite Nat.Div0.mod_add, Nat.mod_small by lia. reflexivity.
Qed.

(** C8. The code departs from the claim on a signer below 2^152: for the
    160-bit signer 0x00aa...a1 and a random source of hexadecimal digits
    whose every candidate is the key 228, each candidate is in the
    admissible range [0, signer - 1] and the last byte of signer XOR the
    zero-padded key is 0xa1 XOR 0xe4 = 69, yet [resolveChallenge] returns
    no value: it is still running at every budget of the loop.  [pad]
    counted the [0x] prefix, so the key was never XORed and the test only
    saw the signer's last byte, 0xa1. *)
Theorem resolveChallenge_rejects_admissible_candidates :
  exists signer,
    BigNumber.from Fixtures.address_a1 = Some signer /\
    0 <= signer < 2 ^ 160 /\
    (forall i, 0 <= Fixtures.cycle Fixtures.e4_digits i < 16) /\
    (forall k,
       candidate (Fixtures.cycle Fixtures.e4_digits) 0 k = 228 /\
       betweenLimits (limits_of signer) 228 = true /\
       spec_last_xor_byte Fixtures.address_a1 228 = GOAL) /\
    (forall k,
       resolved Fixtures.address_a1 (limits_of signer)
                (candidate (Fixtures.cycle Fixtures.e4_digits) 0 k)
       = false) /\
    (forall fuel,
       resolveChallenge (Fixtures.cycle Fixtures.e4_digits) fuel
                        Fixtures.address_a1 0%nat
       = Running).
Proof.
  exists Fixtures.a1_value. split; [vm_compute; reflexivity |].
  split; [split; [discriminate | reflexivity] |].
  split; [apply cycle_digit |].
  assert (NoKey : forall key,
            resolved Fixtures.address_a1
                     (limits_of Fixtures.a1_value)
                     key = false).
  { apply small_odd_signer_has_no_key.
    - vm_compute. reflexivity.
    - reflexivity.
    - vm_compute. discriminate.
    - vm_compute. discriminate. }
  split; [| split].
  - intros k. split; [apply cycle_candidate |].
    split; vm_compute; reflexivity.
  - intros k. apply NoKey.
  - intros fuel.
    rewrite (resolveChallenge_unfold _ _ _ Fixtures.a1_value
               _ (cycle_digit Fixtures.e4_digits)) by (vm_compute; reflexivity).
    apply (search_miss _ (cycle_digit Fixtures.e4_digits)).
    intros k _. apply NoKey.
Qed.
